(** * Video Upscaler page: the job lifecycle of [src/app/page.tsx]

    The page component keeps its data in React state cells, builds an
    ffmpeg argument list from the chosen parameters and drives one
    transcoding job at a time through the in-browser engine.  This file
    embeds
    - the parameter translator ([buildScaleFilter], the argument list),
    - the progress handler ([Math.round (progress * 100)]),
    - the event handlers [handleFile] and [upscale] together with the
      URL-revoking effect cleanup, as a transition system over the
      component state that records every engine call and every object-URL
      call in a trace,
    and proves the properties of the specification against it.

    JavaScript numbers that the page only ever uses as integers (sizes,
    CRF, pixel counts, percentages) are [Z]; the progress ratio delivered by
    the engine and the values of scale expressions are exact rationals
    [Q], so the rounding of IEEE products is not part of the model. *)

From Stdlib Require Import ZArith QArith Qround String Ascii List Bool Lia Lqa.
From Stdlib Require Import DecimalString.
Import ListNotations.

Local Open Scope Z_scope.
Local Open Scope string_scope.

(* ================================================================= *)
(** * Parameter-to-argument translator *)

(** [String(n)] for an integral number. *)
Definition String_of_number (n : Z) : string :=
  NilZero.string_of_int (Z.to_int n).

(** [buildScaleFilter (w, h)], lines 80-98.  [scale] and [algo] are the
    state cells the closure reads; the [switch] compares strings and has
    a [default] branch. *)
Definition buildScaleFilter (scale algo : string) (w h : Z) : string :=
  let flags := "flags=" ++ algo in
  if String.eqb scale "2x" then "scale=iw*2:ih*2:" ++ flags
  else if String.eqb scale "3x" then "scale=iw*3:ih*3:" ++ flags
  else if String.eqb scale "4x" then "scale=iw*4:ih*4:" ++ flags
  else if String.eqb scale "720p" then "scale='trunc(oh*a/2)*2':720:" ++ flags
  else if String.eqb scale "1080p" then "scale='trunc(oh*a/2)*2':1080:" ++ flags
  else if String.eqb scale "4k" then "scale=3840:2160:" ++ flags
  else "scale=iw*2:ih*2:" ++ flags.

(** The encode arguments that follow the filter in [args], lines 127-132. *)
Definition encodeArgs (preset : string) (crf : Z) : list string :=
  [ "-c:v"; "libx264";
    "-preset"; preset;
    "-crf"; String_of_number crf;
    "-c:a"; "copy";
    "-movflags"; "+faststart";
    "output.mp4" ].

(** [args], lines 124-133. *)
Definition buildArgs (scaleFilter preset : string) (crf : Z) : list string :=
  [ "-i"; "input"; "-vf"; scaleFilter ] ++ encodeArgs preset crf.

(** The six values of the [ScalePreset] type. *)
Definition scalePresets : list string :=
  [ "2x"; "3x"; "4x"; "720p"; "1080p"; "4k" ].

(* ================================================================= *)
(** * What a scale filter asks the engine for

    The translator hands the engine a string; which frame size that
    string stands for is decided by the engine's filter-option syntax and
    expression language.  The fragment below covers what the page can
    emit: positional options separated by [:], single quotes protecting
    an option, and arithmetic over the variables [iw], [ih] (input size),
    [a] (= iw / ih), [ow], [oh] (the other output dimension) with
    [trunc], [floor] and [ceil].  Values are exact rationals.  The
    engine's special readings of a zero or negative size are left out:
    [scale_target] returns the truncated values of the two expressions. *)

Module ScaleExpr.

Inductive token :=
| TNum (n : Z) | TId (x : string)
| TMul | TDiv | TAdd | TSub | TLp | TRp.

Definition is_digit (c : ascii) : bool :=
  let n := nat_of_ascii c in (48 <=? n)%nat && (n <=? 57)%nat.

Definition digit_val (c : ascii) : Z := Z.of_nat (nat_of_ascii c) - 48.

Definition is_letter (c : ascii) : bool :=
  let n := nat_of_ascii c in
  ((65 <=? n)%nat && (n <=? 90)%nat) || ((97 <=? n)%nat && (n <=? 122)%nat)
  || (n =? 95)%nat.

Definition punct (c : ascii) : option token :=
  if Ascii.eqb c "*" then Some TMul
  else if Ascii.eqb c "/" then Some TDiv
  else if Ascii.eqb c "+" then Some TAdd
  else if Ascii.eqb c "-" then Some TSub
  else if Ascii.eqb c "(" then Some TLp
  else if Ascii.eqb c ")" then Some TRp
  else None.

(** The word being read while lexing. *)
Inductive pending := PNone | PDigits (n : Z) | PIdent (x : string).

Definition flush (p : pending) (ts : list token) : list token :=
  match p with
  | PNone => ts
  | PDigits n => TNum n :: ts
  | PIdent x => TId x :: ts
  end.

Fixpoint lex_from (p : pending) (s : string) : option (list token) :=
  match s with
  | EmptyString => Some (flush p [])
  | String c s' =>
      if is_digit c then
        match p with
        | PNone => lex_from (PDigits (digit_val c)) s'
        | PDigits n => lex_from (PDigits (10 * n + digit_val c)) s'
        | PIdent x => lex_from (PIdent (x ++ String c EmptyString)) s'
        end
      else if is_letter c then
        match p with
        | PNone => lex_from (PIdent (String c EmptyString)) s'
        | PIdent x => lex_from (PIdent (x ++ String c EmptyString)) s'
        | PDigits _ => None
        end
      else if Ascii.eqb c " " then
        option_map (flush p) (lex_from PNone s')
      else
        match punct c with
        | Some t => option_map (fun ts => flush p (t :: ts)) (lex_from PNone s')
        | None => None
        end
  end.

Definition lex : string -> option (list token) := lex_from PNone.

Inductive binop := Add | Sub | Mul | Div.

Inductive expr :=
| Num (n : Z)
| Var (x : string)
| Call (f : string) (e : expr)
| Neg (e : expr)
| Bin (o : binop) (e1 e2 : expr).

(** Recursive descent, left-associative operators; [n] bounds the
    number of calls and is chosen from the token count by [parse]. *)
Fixpoint parse_sum (n : nat) (ts : list token) : option (expr * list token) :=
  match n with
  | O => None
  | S n =>
      match parse_prod n ts with
      | Some (e, r) => sum_rest n e r
      | None => None
      end
  end
with sum_rest (n : nat) (lhs : expr) (ts : list token)
  : option (expr * list token) :=
  match n with
  | O => None
  | S n =>
      match ts with
      | TAdd :: r =>
          match parse_prod n r with
          | Some (e, r') => sum_rest n (Bin Add lhs e) r'
          | None => None
          end
      | TSub :: r =>
          match parse_prod n r with
          | Some (e, r') => sum_rest n (Bin Sub lhs e) r'
          | None => None
          end
      | _ => Some (lhs, ts)
      end
  end
with parse_prod (n : nat) (ts : list token) : option (expr * list token) :=
  match n with
  | O => None
  | S n =>
      match parse_atom n ts with
      | Some (e, r) => prod_rest n e r
      | None => None
      end
  end
with prod_rest (n : nat) (lhs : expr) (ts : list token)
  : option (expr * list token) :=
  match n with
  | O => None
  | S n =>
      match ts with
      | TMul :: r =>
          match parse_atom n r with
          | Some (e, r') => prod_rest n (Bin Mul lhs e) r'
          | None => None
          end
      | TDiv :: r =>
          match parse_atom n r with
          | Some (e, r') => prod_rest n (Bin Div lhs e) r'
          | None => None
          end
      | _ => Some (lhs, ts)
      end
  end
with parse_atom (n : nat) (ts : list token) : option (expr * list token) :=
  match n with
  | O => None
  | S n =>
      match ts with
      | TNum k :: r => Some (Num k, r)
      | TId f :: TLp :: r =>
          match parse_sum n r with
          | Some (e, TRp :: r') => Some (Call f e, r')
          | _ => None
          end
      | TId x :: r => Some (Var x, r)
      | TLp :: r =>
          match parse_sum n r with
          | Some (e, TRp :: r') => Some (e, r')
          | _ => None
          end
      | TSub :: r =>
          match parse_atom n r with
          | Some (e, r') => Some (Neg e, r')
          | None => None
          end
      | _ => None
      end
  end.

Definition parse (s : string) : option expr :=
  match lex s with
  | Some ts =>
      match parse_sum (4 * List.length ts + 4) ts with
      | Some (e, []) => Some e
      | _ => None
      end
  | None => None
  end.

(** Truncation toward zero. *)
Definition Qtrunc (q : Q) : Z := Z.quot (Qnum q) (Zpos (Qden q)).

Record env := { iw : Z; ih : Z; ow : option Q; oh : option Q }.

Definition lookup (v : env) (x : string) : option Q :=
  if String.eqb x "iw" || String.eqb x "in_w" then Some (inject_Z (iw v))
  else if String.eqb x "ih" || String.eqb x "in_h" then Some (inject_Z (ih v))
  else if String.eqb x "a" then
    if (ih v =? 0)%Z then None else Some (inject_Z (iw v) / inject_Z (ih v))%Q
  else if String.eqb x "ow" || String.eqb x "out_w" then ow v
  else if String.eqb x "oh" || String.eqb x "out_h" then oh v
  else None.

Definition apply_fun (f : string) (q : Q) : option Q :=
  if String.eqb f "trunc" then Some (inject_Z (Qtrunc q))
  else if String.eqb f "floor" then Some (inject_Z (Qfloor q))
  else if String.eqb f "ceil" then Some (inject_Z (Qceiling q))
  else None.

Definition apply_op (o : binop) (x y : Q) : option Q :=
  match o with
  | Add => Some (x + y)%Q
  | Sub => Some (x - y)%Q
  | Mul => Some (x * y)%Q
  | Div => if (Qnum y =? 0)%Z then None else Some (x / y)%Q
  end.

Fixpoint eval (v : env) (e : expr) : option Q :=
  match e with
  | Num n => Some (inject_Z n)
  | Var x => lookup v x
  | Call f e =>
      match eval v e with
      | Some q => apply_fun f q
      | None => None
      end
  | Neg e => option_map Qopp (eval v e)
  | Bin o e1 e2 =>
      match eval v e1, eval v e2 with
      | Some x, Some y => apply_op o x y
      | _, _ => None
      end
  end.

(** One option of a filter: the text up to the next [:] outside single
    quotes, with the quotes removed, and what follows that [:]. *)
Fixpoint take_option (quoted : bool) (s : string) : string * option string :=
  match s with
  | EmptyString => (EmptyString, None)
  | String c s' =>
      if Ascii.eqb c "'" then take_option (negb quoted) s'
      else if Ascii.eqb c ":" && negb quoted then (EmptyString, Some s')
      else let (o, r) := take_option quoted s' in (String c o, r)
  end.

Fixpoint strip_prefix (p s : string) : option string :=
  match p, s with
  | EmptyString, _ => Some s
  | String a p', String b s' => if Ascii.eqb a b then strip_prefix p' s' else None
  | _, _ => None
  end.

(** The width and height expressions of a [scale=W:H...] filter. *)
Definition scale_exprs (filter : string) : option (expr * expr) :=
  match strip_prefix "scale=" filter with
  | Some body =>
      match take_option false body with
      | (wtxt, Some rest) =>
          let (htxt, _) := take_option false rest in
          match parse wtxt, parse htxt with
          | Some we, Some he => Some (we, he)
          | _, _ => None
          end
      | _ => None
      end
  | None => None
  end.

(** The value of the [flags=] option after width and height. *)
Definition scale_flags (filter : string) : option string :=
  match strip_prefix "scale=" filter with
  | Some body =>
      match take_option false body with
      | (_, Some rest) =>
          match take_option false rest with
          | (_, Some rest') =>
              strip_prefix "flags=" (fst (take_option false rest'))
          | _ => None
          end
      | _ => None
      end
  | None => None
  end.

(** Height first with no [ow] (or width first when the height refers to
    it), then the other dimension. *)
Definition eval_dims (we he : expr) (w h : Z) : option (Z * Z) :=
  let v0 := {| iw := w; ih := h; ow := None; oh := None |} in
  match eval v0 he with
  | Some hq =>
      match eval {| iw := w; ih := h; ow := None; oh := Some hq |} we with
      | Some wq => Some (Qtrunc wq, Qtrunc hq)
      | None => None
      end
  | None =>
      match eval v0 we with
      | Some wq =>
          match eval {| iw := w; ih := h; ow := Some wq; oh := None |} he with
          | Some hq => Some (Qtrunc wq, Qtrunc hq)
          | None => None
          end
      | None => None
      end
  end.

(** Output size a filter asks for on an input of [w] by [h] pixels. *)
Definition scale_target (filter : string) (w h : Z) : option (Z * Z) :=
  match scale_exprs filter with
  | Some (we, he) => eval_dims we he w h
  | None => None
  end.


End ScaleExpr.

(* ================================================================= *)
(** * Component state *)

(** What the page reads of a [File]. *)
Record File := { name : string; size : Z }.

(** Object URLs ([blob:...] strings, each one new) are numbered. *)
Definition url := nat.

(** The [useState] cells of [HomePage], lines 13-24.  [ffmpeg] records
    whether the cell holds a loaded instance or [null]. *)
Record State := {
  ffmpeg : bool;
  loadingCore : bool;
  file : option File;
  inputUrl : option url;
  progress : Z;
  status : string;
  outputUrl : option url;
  scale : string;
  algo : string;
  crf : Z;
  preset : string;
  processing : bool }.

Definition with_file (v : option File) (s : State) : State :=
  {| ffmpeg := ffmpeg s; loadingCore := loadingCore s; file := v;
     inputUrl := inputUrl s; progress := progress s; status := status s;
     outputUrl := outputUrl s; scale := scale s; algo := algo s;
     crf := crf s; preset := preset s; processing := processing s |}.

Definition with_inputUrl (v : option url) (s : State) : State :=
  {| ffmpeg := ffmpeg s; loadingCore := loadingCore s; file := file s;
     inputUrl := v; progress := progress s; status := status s;
     outputUrl := outputUrl s; scale := scale s; algo := algo s;
     crf := crf s; preset := preset s; processing := processing s |}.

Definition with_progress (v : Z) (s : State) : State :=
  {| ffmpeg := ffmpeg s; loadingCore := loadingCore s; file := file s;
     inputUrl := inputUrl s; progress := v; status := status s;
     outputUrl := outputUrl s; scale := scale s; algo := algo s;
     crf := crf s; preset := preset s; processing := processing s |}.

Definition with_status (v : string) (s : State) : State :=
  {| ffmpeg := ffmpeg s; loadingCore := loadingCore s; file := file s;
     inputUrl := inputUrl s; progress := progress s; status := v;
     outputUrl := outputUrl s; scale := scale s; algo := algo s;
     crf := crf s; preset := preset s; processing := processing s |}.

Definition with_outputUrl (v : option url) (s : State) : State :=
  {| ffmpeg := ffmpeg s; loadingCore := loadingCore s; file := file s;
     inputUrl := inputUrl s; progress := progress s; status := status s;
     outputUrl := v; scale := scale s; algo := algo s; crf := crf s;
     preset := preset s; processing := processing s |}.

Definition with_scale (v : string) (s : State) : State :=
  {| ffmpeg := ffmpeg s; loadingCore := loadingCore s; file := file s;
     inputUrl := inputUrl s; progress := progress s; status := status s;
     outputUrl := outputUrl s; scale := v; algo := algo s; crf := crf s;
     preset := preset s; processing := processing s |}.

Definition with_algo (v : string) (s : State) : State :=
  {| ffmpeg := ffmpeg s; loadingCore := loadingCore s; file := file s;
     inputUrl := inputUrl s; progress := progress s; status := status s;
     outputUrl := outputUrl s; scale := scale s; algo := v; crf := crf s;
     preset := preset s; processing := processing s |}.

Definition with_crf (v : Z) (s : State) : State :=
  {| ffmpeg := ffmpeg s; loadingCore := loadingCore s; file := file s;
     inputUrl := inputUrl s; progress := progress s; status := status s;
     outputUrl := outputUrl s; scale := scale s; algo := algo s; crf := v;
     preset := preset s; processing := processing s |}.

Definition with_preset (v : string) (s : State) : State :=
  {| ffmpeg := ffmpeg s; loadingCore := loadingCore s; file := file s;
     inputUrl := inputUrl s; progress := progress s; status := status s;
     outputUrl := outputUrl s; scale := scale s; algo := algo s;
     crf := crf s; preset := v; processing := processing s |}.

Definition with_processing (v : bool) (s : State) : State :=
  {| ffmpeg := ffmpeg s; loadingCore := loadingCore s; file := file s;
     inputUrl := inputUrl s; progress := progress s; status := status s;
     outputUrl := outputUrl s; scale := scale s; algo := algo s;
     crf := crf s; preset := preset s; processing := v |}.

(* ================================================================= *)
(** * Calls that leave the component *)

(** Which of the two state cells a handle was created for. *)
Inductive Kind := InputHandle | OutputHandle.

Inductive event :=
| EvFetchFile (f : File)
| EvWriteFile (path : string) (f : File)
| EvExec (args : list string)
| EvReadFile (path : string)
| EvCreateURL (k : Kind) (u : url)
| EvRevokeURL (u : url).

Definition is_engine_call (e : event) : bool :=
  match e with
  | EvWriteFile _ _ | EvExec _ | EvReadFile _ => true
  | _ => false
  end.

Definition is_create (k : Kind) (e : event) : bool :=
  match e, k with
  | EvCreateURL InputHandle _, InputHandle => true
  | EvCreateURL OutputHandle _, OutputHandle => true
  | _, _ => false
  end.

(** A handler runs against the state updates queued so far, the next
    unused URL and the calls made so far.  It reads state cells from the
    render it closes over, never from [queued]. *)
Record hstate := { queued : State; fresh : url; calls : list event }.

Definition Handler (A : Type) : Type := hstate -> A * hstate.

Definition ret {A} (a : A) : Handler A := fun h => (a, h).

Definition bind {A B} (m : Handler A) (k : A -> Handler B) : Handler B :=
  fun h => let (a, h') := m h in k a h'.

Notation "x <- m ;; k" := (bind m (fun x => k))
  (at level 61, m at next level, right associativity).
Notation "m ;; k" := (bind m (fun _ => k))
  (at level 61, right associativity).

Definition set_state (f : State -> State) : Handler unit :=
  fun h => (tt, {| queued := f (queued h); fresh := fresh h; calls := calls h |}).

Definition emit (e : event) : Handler unit :=
  fun h => (tt, {| queued := queued h; fresh := fresh h;
                   calls := (calls h ++ [e])%list |}).

Definition setFile v := set_state (with_file v).
Definition setInputUrl v := set_state (with_inputUrl v).
Definition setProgress v := set_state (with_progress v).
Definition setStatus v := set_state (with_status v).
Definition setOutputUrl v := set_state (with_outputUrl v).
Definition setScale v := set_state (with_scale v).
Definition setAlgo v := set_state (with_algo v).
Definition setCrf v := set_state (with_crf v).
Definition setPreset v := set_state (with_preset v).
Definition setProcessing v := set_state (with_processing v).

Definition URL_createObjectURL (k : Kind) : Handler url :=
  fun h => (fresh h, {| queued := queued h; fresh := S (fresh h);
                        calls := (calls h ++ [EvCreateURL k (fresh h)])%list |}).

Definition URL_revokeObjectURL (u : url) : Handler unit := emit (EvRevokeURL u).

Definition fetchFile (f : File) : Handler unit := emit (EvFetchFile f).
Definition ffmpeg_writeFile (path : string) (f : File) : Handler unit :=
  emit (EvWriteFile path f).
Definition ffmpeg_exec (args : list string) : Handler unit := emit (EvExec args).
Definition ffmpeg_readFile (path : string) : Handler unit := emit (EvReadFile path).

(** [if (x) k(x)] for a nullable [x]. *)
Definition if_set {A} (x : option A) (k : A -> Handler unit) : Handler unit :=
  match x with
  | Some a => k a
  | None => ret tt
  end.

(* ================================================================= *)
(** * Handlers *)

(** [Math.round]: the nearest integer, halves upwards. *)
Definition Math_round (q : Q) : Z := Qfloor (q + (1 # 2))%Q.

Arguments Math_round : simpl never.

(** The [progress] listener, lines 37-39. *)
Definition on_progress (ratio : Q) : Handler unit :=
  setProgress (Math_round (ratio * 100)%Q).

(** The [log] listener, lines 40-42. *)
Definition on_log (message : string) : Handler unit :=
  setStatus message.

(** The cleanup of the URL effect, lines 64-67, closed over render [r]. *)
Definition revoke_cleanup (r : State) : Handler unit :=
  if_set (inputUrl r) URL_revokeObjectURL ;;
  if_set (outputUrl r) URL_revokeObjectURL.

Definition option_url_eqb (a b : option url) : bool :=
  match a, b with
  | Some x, Some y => Nat.eqb x y
  | None, None => true
  | _, _ => false
  end.

(** The dependency list [[inputUrl, outputUrl]], line 68. *)
Definition deps_changed (r r' : State) : bool :=
  negb (option_url_eqb (inputUrl r) (inputUrl r')
        && option_url_eqb (outputUrl r) (outputUrl r')).

(** Re-render after a handler: the queued state becomes current and,
    when a dependency changed, the cleanup of the previous render runs. *)
Definition commit (r : State) : Handler unit :=
  fun h => if deps_changed r (queued h) then revoke_cleanup r h else (tt, h).

(** [handleFile], lines 70-78. *)
Definition handleFile (r : State) (f : option File) : Handler unit :=
  setOutputUrl None ;;
  setProgress 0 ;;
  setStatus EmptyString ;;
  setFile f ;;
  if_set (inputUrl r) URL_revokeObjectURL ;;
  match f with
  | Some f' => u <- URL_createObjectURL InputHandle ;; setInputUrl (Some u)
  | None => setInputUrl None
  end.

(** Where a started [upscale] call is suspended. *)
Inductive await := AwaitFetch | AwaitWrite | AwaitExec | AwaitRead.

(** A suspended [upscale] call: the render it closed over, the file it
    passed the guards with and its local [scaleFilter]. *)
Record Job := {
  awaiting : await;
  closure : State;
  job_file : File;
  scaleFilter : string }.

Definition suspend (a : await) (j : Job) : Job :=
  {| awaiting := a; closure := closure j; job_file := job_file j;
     scaleFilter := scaleFilter j |}.

(** How an awaited promise settles; a rejection carries [err?.message]. *)
Inductive outcome := Fulfilled | Rejected (message : option string).

(** [x || d] on a possibly missing string: the empty string is falsy. *)
Definition or_default (x : option string) (d : string) : string :=
  match x with
  | Some s => if String.eqb s EmptyString then d else s
  | None => d
  end.

Definition maxBytes : Z := 300 * 1024 * 1024.

Arguments maxBytes : simpl never.

Definition too_large : string := "File too large. Please use a file under 300MB.".

(** The [catch] and [finally] blocks, lines 143-148. *)
Definition upscale_catch (message : option string) : Handler (option Job) :=
  setStatus (or_default message "Upscaling failed") ;;
  setProcessing false ;;
  ret None.

(** Lines 114-118: the intrinsic size of the preview element, if any. *)
Definition input_dims (video : option (Z * Z)) : Z * Z :=
  match video with
  | Some (videoWidth, videoHeight) =>
      if (videoWidth =? 0)%Z then (0, 0) else (videoWidth, videoHeight)
  | None => (0, 0)
  end.

(** [upscale] up to its first [await], lines 100-122.  The result is the
    suspended call, or [None] when the call has already returned. *)
Definition upscale (r : State) (video : option (Z * Z)) : Handler (option Job) :=
  match ffmpeg r, file r with
  | true, Some f =>
      setProcessing true ;;
      setProgress 0 ;;
      setStatus "Preparing..." ;;
      if size f >? maxBytes then
        upscale_catch (Some too_large)
      else
        let (inW, inH) := input_dims video in
        let filter := buildScaleFilter (scale r) (algo r) inW inH in
        fetchFile f ;;
        ret (Some {| awaiting := AwaitFetch; closure := r; job_file := f;
                     scaleFilter := filter |})
  | _, _ => ret None
  end.

(** [upscale] from one [await] to the next, lines 122-148. *)
Definition upscale_resume (j : Job) (o : outcome) : Handler (option Job) :=
  match o with
  | Rejected message => upscale_catch message
  | Fulfilled =>
      match awaiting j with
      | AwaitFetch =>
          ffmpeg_writeFile "input" (job_file j) ;;
          ret (Some (suspend AwaitWrite j))
      | AwaitWrite =>
          let args :=
            buildArgs (scaleFilter j) (preset (closure j)) (crf (closure j)) in
          setStatus "Upscaling..." ;;
          ffmpeg_exec args ;;
          ret (Some (suspend AwaitExec j))
      | AwaitExec =>
          ffmpeg_readFile "output.mp4" ;;
          ret (Some (suspend AwaitRead j))
      | AwaitRead =>
          u <- URL_createObjectURL OutputHandle ;;
          setOutputUrl (Some u) ;;
          setStatus "Done" ;;
          setProcessing false ;;
          ret None
      end
  end.

(** [disabled], line 151. *)
Definition disabled (r : State) : bool :=
  negb (ffmpeg r) || loadingCore r
  || match file r with Some _ => false | None => true end
  || processing r.

(* ================================================================= *)
(** * The page as a transition system *)

(** What can happen to the mounted page: the user's controls, the
    engine's listeners and the settling of the promise a job awaits.
    [ClickStart] carries what the preview element reports as
    [videoWidth] and [videoHeight] ([None] when there is no element). *)
Inductive Input :=
| SelectFile (f : option File)
| ClickStart (video : option (Z * Z))
| ChangeScale (v : string)
| ChangeAlgo (v : string)
| ChangeCrf (v : Z)
| ChangePreset (v : string)
| Progress (ratio : Q)
| Log (message : string)
| Settle (o : outcome).

Record World := {
  st : State;
  job : option Job;
  next_url : url;
  trace : list event }.

(** The handler an input runs; a click on the disabled button runs none. *)
Definition dispatch (w : World) (i : Input) : Handler (option Job) :=
  let r := st w in
  match i with
  | SelectFile f => handleFile r f ;; ret (job w)
  | ClickStart video => if disabled r then ret (job w) else upscale r video
  | ChangeScale v => setScale v ;; ret (job w)
  | ChangeAlgo v => setAlgo v ;; ret (job w)
  | ChangeCrf v => setCrf v ;; ret (job w)
  | ChangePreset v => setPreset v ;; ret (job w)
  | Progress ratio => on_progress ratio ;; ret (job w)
  | Log message => on_log message ;; ret (job w)
  | Settle o =>
      match job w with
      | Some j => upscale_resume j o
      | None => ret None
      end
  end.

(** The calls one input causes, and the world after its re-render. *)
Definition react (w : World) (i : Input) : option Job * hstate :=
  (j <- dispatch w i ;; commit (st w) ;; ret j)
    {| queued := st w; fresh := next_url w; calls := [] |}.

Definition step (w : World) (i : Input) : World :=
  let (j, h) := react w i in
  {| st := queued h; job := j; next_url := fresh h;
     trace := (trace w ++ calls h)%list |}.

Definition run (w : World) (inputs : list Input) : World :=
  fold_left step inputs w.

(** Unmounting runs the cleanup of the current render. *)
Definition unmount (w : World) : World :=
  let (_, h) := revoke_cleanup (st w)
                  {| queued := st w; fresh := next_url w; calls := [] |} in
  {| st := st w; job := job w; next_url := next_url w;
     trace := (trace w ++ calls h)%list |}.

(** The initial values of the state cells.  How the engine cell gets
    filled (the loading effect, lines 30-60) is not part of this
    development: [ready] fixes it. *)
Definition initial_state (ready : bool) : State :=
  {| ffmpeg := ready; loadingCore := false; file := None; inputUrl := None;
     progress := 0; status := EmptyString; outputUrl := None; scale := "2x";
     algo := "lanczos"; crf := 20; preset := "medium"; processing := false |}.

Definition mounted (ready : bool) : World :=
  {| st := initial_state ready; job := None; next_url := O; trace := [] |}.

(* ================================================================= *)
(** * Live handles of a trace *)

(** The handles of kind [k] live after one more call. *)
Definition live_step (k : Kind) (l : list url) (e : event) : list url :=
  match e with
  | EvCreateURL k' u => if is_create k e then (l ++ [u])%list else l
  | EvRevokeURL u => filter (fun x => negb (Nat.eqb x u)) l
  | _ => l
  end.

Definition live_from (k : Kind) (l : list url) (t : list event) : list url :=
  fold_left (live_step k) t l.

Definition live (k : Kind) (t : list event) : list url := live_from k [] t.

(** At most one handle of kind [k] is live before and after every call
    of [t], starting from the live handles [l]. *)
Fixpoint never_two_from (k : Kind) (l : list url) (t : list event) : bool :=
  (List.length l <=? 1)%nat &&
  match t with
  | [] => true
  | e :: t' => never_two_from k (live_step k l e) t'
  end.

Definition never_two (k : Kind) (t : list event) : bool := never_two_from k [] t.

Arguments live : simpl never.
Arguments never_two : simpl never.

Definition engine_calls (t : list event) : list event := filter is_engine_call t.

(* ================================================================= *)
(** * Invariants of the mounted page *)

(** The live handles of one kind are at most the one held in the cell. *)
Definition held (cell : option url) (l : list url) : Prop :=
  match l with
  | [] => True
  | [u] => cell = Some u
  | _ => False
  end.

(** A URL held in a cell was handed out before [n]. *)
Definition below (n : url) (cell : option url) : Prop :=
  match cell with
  | Some u => (u < n)%nat
  | None => True
  end.

Record Inv (w : World) : Prop := {
  inv_input : held (inputUrl (st w)) (live InputHandle (trace w));
  inv_output : held (outputUrl (st w)) (live OutputHandle (trace w));
  inv_input_below : below (next_url w) (inputUrl (st w));
  inv_output_below : below (next_url w) (outputUrl (st w));
  inv_history : never_two InputHandle (trace w) = true;
  inv_job : processing (st w) =
            match job w with Some _ => true | None => false end }.

(** The calls [if (x) URL.revokeObjectURL(x)] makes. *)
Definition revokes (cell : option url) : list event :=
  match cell with
  | Some u => [EvRevokeURL u]
  | None => []
  end.


(* ================================================================= *)
(** * Sample files *)

Definition clip : File := {| name := "clip.mp4"; size := 1000 |}.

(** One byte over the limit. *)
Definition big : File := {| name := "big.mp4"; size := maxBytes + 1 |}.

(** A job that runs to the point where the output has been read. *)
Definition job_until_read : list Input :=
  [ ClickStart None; Settle Fulfilled; Settle Fulfilled; Settle Fulfilled ].

(* ================================================================= *)
(** * What the page shows *)

(** A character that [[^/.]] accepts. *)
Definition ext_char (c : ascii) : bool :=
  negb (Ascii.eqb c "/") && negb (Ascii.eqb c ".").

Fixpoint ext_chars (s : string) : bool :=
  match s with
  | EmptyString => true
  | String c s' => ext_char c && ext_chars s'
  end.

(** The whole of [s] matches [[^/.]+]. *)
Definition is_extension (s : string) : bool :=
  match s with
  | EmptyString => false
  | String _ _ => ext_chars s
  end.

(** [s.replace(/\.[^/.]+$/, '')]: the leftmost dot that is followed, up
    to the end of the string, by one or more characters other than [/]
    and [.] is removed together with what follows it. *)
Fixpoint strip_extension (s : string) : string :=
  match s with
  | EmptyString => EmptyString
  | String c s' =>
      if Ascii.eqb c "." && is_extension s' then EmptyString
      else String c (strip_extension s')
  end.

(** The [download] attribute of the result link, line 260. *)
Definition downloadName (file : option File) : string :=
  "upscaled-"
  ++ or_default (option_map (fun f => strip_extension (name f)) file) "video"
  ++ ".mp4".

(** What the JSX of lines 180-263 makes of the state: the preview
    player, the start button, the progress bar (with the percentage it
    prints) and the result panel (player source and download name). *)
Record View := {
  preview : option url;
  start_disabled : bool;
  start_label : string;
  progress_bar : option Z;
  result : option (url * string) }.

Definition render (r : State) : View :=
  {| preview := inputUrl r;
     start_disabled := disabled r;
     start_label := if processing r then "Upscaling?" else "Start Upscaling";
     progress_bar :=
       if processing r || (progress r >? 0) then Some (progress r) else None;
     result :=
       option_map (fun u => (u, downloadName (file r))) (outputUrl r) |}.

(* ================================================================= *)
(** * The order of a job's calls *)

(** How far the calls of the latest job have got. *)
Inductive stage :=
| Idle | Fetched (f : File) | Written | Executed | ReadBack.

Definition File_eqb (a b : File) : bool :=
  String.eqb (name a) (name b) && Z.eqb (size a) (size b).

(** The stage after one more call, or [None] when the call is out of
    order: [writeFile] stores the file just fetched under [input],
    [exec] follows it, [readFile] of [output.mp4] follows [exec], and an
    output URL is created only for what has been read.  A job may stop
    at any stage, so [fetchFile] may follow anything. *)
Definition stage_step (s : stage) (e : event) : option stage :=
  match e with
  | EvFetchFile f => Some (Fetched f)
  | EvWriteFile path f =>
      match s with
      | Fetched f' =>
          if String.eqb path "input" && File_eqb f f' then Some Written
          else None
      | _ => None
      end
  | EvExec _ =>
      match s with
      | Written => Some Executed
      | _ => None
      end
  | EvReadFile path =>
      match s with
      | Executed => if String.eqb path "output.mp4" then Some ReadBack else None
      | _ => None
      end
  | EvCreateURL OutputHandle _ =>
      match s with
      | ReadBack => Some Idle
      | _ => None
      end
  | EvCreateURL InputHandle _ | EvRevokeURL _ => Some s
  end.

Fixpoint stage_from (s : stage) (t : list event) : option stage :=
  match t with
  | [] => Some s
  | e :: t' =>
      match stage_step s e with
      | Some s' => stage_from s' t'
      | None => None
      end
  end.

(** The stage a suspended job has reached. *)
Definition stage_of (j : Job) : stage :=
  match awaiting j with
  | AwaitFetch => Fetched (job_file j)
  | AwaitWrite => Written
  | AwaitExec => Executed
  | AwaitRead => ReadBack
  end.

Definition is_settle (i : Input) : bool :=
  match i with
  | Settle _ => true
  | _ => false
  end.

Definition is_change (i : Input) : bool :=
  match i with
  | ChangeScale _ | ChangeAlgo _ | ChangeCrf _ | ChangePreset _ => true
  | _ => false
  end.

(** The output cell never holds a revoked URL. *)
Definition output_shown_live (w : World) : Prop :=
  match outputUrl (st w) with
  | Some u => live OutputHandle (trace w) = [u]
  | None => True
  end.

(* ================================================================= *)
(** * Loading the engine

    [mounted] takes the engine cell as given.  The effect that is meant
    to fill it, lines 30-60, is modelled here on top of [step]: every
    run of the effect has its own [cancelled] variable, a re-render
    with a changed dependency cleans up the current run and starts the
    next, and the load of a run settles as an input of its own. *)

Definition with_ffmpeg (v : bool) (s : State) : State :=
  {| ffmpeg := v; loadingCore := loadingCore s; file := file s;
     inputUrl := inputUrl s; progress := progress s; status := status s;
     outputUrl := outputUrl s; scale := scale s; algo := algo s;
     crf := crf s; preset := preset s; processing := processing s |}.

Definition with_loadingCore (v : bool) (s : State) : State :=
  {| ffmpeg := ffmpeg s; loadingCore := v; file := file s;
     inputUrl := inputUrl s; progress := progress s; status := status s;
     outputUrl := outputUrl s; scale := scale s; algo := algo s;
     crf := crf s; preset := preset s; processing := processing s |}.

Definition setFfmpeg v := set_state (with_ffmpeg v).
Definition setLoadingCore v := set_state (with_loadingCore v).

(** One run of the loading effect, lines 30-60: its own [cancelled]
    variable, and whether its [init] is suspended at the load. *)
Record effect_run := { cancelled : bool; loading : bool }.

(** The effect body up to the first [await] of [init], lines 31-47. *)
Definition load_effect (r : State) : Handler effect_run :=
  if ffmpeg r || loadingCore r then
    ret {| cancelled := false; loading := false |}
  else
    setLoadingCore true ;;
    ret {| cancelled := false; loading := true |}.

(** [init] once the load has settled, lines 48-54.  Between the four
    awaits of the load itself nothing is done, so they are one step. *)
Definition load_settled (e : effect_run) (o : outcome) : Handler unit :=
  match o with
  | Fulfilled => if cancelled e then ret tt else setFfmpeg true
  | Rejected _ =>
      if cancelled e then ret tt else setStatus "Failed to load ffmpeg core"
  end ;;
  if cancelled e then ret tt else setLoadingCore false.

(** The dependency list [[ffmpeg, loadingCore]], line 60. *)
Definition load_deps_changed (r r' : State) : bool :=
  negb (Bool.eqb (ffmpeg r) (ffmpeg r')
        && Bool.eqb (loadingCore r) (loadingCore r')).

(** The cleanup of the current run, lines 57-59. *)
Fixpoint cancel_last (runs : list effect_run) : list effect_run :=
  match runs with
  | [] => []
  | [e] => [ {| cancelled := true; loading := loading e |} ]
  | e :: runs' => e :: cancel_last runs'
  end.

Fixpoint finish_run (k : nat) (runs : list effect_run) : list effect_run :=
  match runs, k with
  | [], _ => []
  | e :: runs', O => {| cancelled := cancelled e; loading := false |} :: runs'
  | e :: runs', S k' => e :: finish_run k' runs'
  end.

(** Re-render from [r] to [s]: while a dependency has changed, the
    current run is cleaned up and the effect runs again on the new
    state, which may change the state once more.  [n] bounds the rounds. *)
Fixpoint rerender_load (n : nat) (r s : State) (runs : list effect_run)
  : State * list effect_run :=
  match n with
  | O => (s, runs)
  | S n' =>
      if load_deps_changed r s then
        let (e, h) :=
          load_effect s {| queued := s; fresh := O; calls := [] |} in
        rerender_load n' s (queued h) (cancel_last runs ++ [e])%list
      else (s, runs)
  end.

(** The page with its loading effect. *)
Record Page := { world : World; runs : list effect_run }.

Inductive PageInput :=
| Does (i : Input)
| LoadSettles (k : nat) (o : outcome).

Definition with_state (s : State) (w : World) : World :=
  {| st := s; job := job w; next_url := next_url w; trace := trace w |}.

Definition page_step (p : Page) (i : PageInput) : Page :=
  match i with
  | Does i' =>
      let w' := step (world p) i' in
      let (s, rs) := rerender_load 3 (st (world p)) (st w') (runs p) in
      {| world := with_state s w'; runs := rs |}
  | LoadSettles k o =>
      match nth_error (runs p) k with
      | Some e =>
          if loading e then
            let (_, h) :=
              load_settled e o
                {| queued := st (world p); fresh := O; calls := [] |} in
            let (s, rs) :=
              rerender_load 3 (st (world p)) (queued h)
                (finish_run k (runs p)) in
            {| world := with_state s (world p); runs := rs |}
          else p
      | None => p
      end
  end.

Definition page_run (p : Page) (inputs : list PageInput) : Page :=
  fold_left page_step inputs p.

(** Mounting: the first render has an empty engine cell; its effect
    runs, and the page re-renders for what the effect set. *)
Definition page_mount : Page :=
  let s0 := initial_state false in
  let (e, h) := load_effect s0 {| queued := s0; fresh := O; calls := [] |} in
  let (s, rs) := rerender_load 3 s0 (queued h) [e] in
  {| world := with_state s (mounted false); runs := rs |}.


(** The calls so far are in order, and a pending job is at the stage the
    calls have reached. *)
Definition in_order (w : World) : Prop :=
  match stage_from Idle (trace w) with
  | Some s =>
      match job w with
      | Some j => s = stage_of j
      | None => True
      end
  | None => False
  end.

(** The page as the loading effect leaves it: no engine, the loading
    flag up, no job, no engine call so far, and every load still
    awaited belongs to a cancelled run. *)
Definition stuck_loading (p : Page) : Prop :=
  ffmpeg (st (world p)) = false
  /\ loadingCore (st (world p)) = true
  /\ job (world p) = None
  /\ engine_calls (trace (world p)) = []
  /\ Forall (fun e => loading e = true -> cancelled e = true) (runs p).

(* ================================================================= *)
(** * The translator *)

Section Translator.

Import ScaleExpr.







End Translator.

(** The filter of each of the six presets. *)
Lemma buildScaleFilter_presets (algo : string) (w h : Z) :
  map (fun scale => buildScaleFilter scale algo w h) scalePresets
  = [ ("scale=iw*2:ih*2:flags=" ++ algo)%string;
      ("scale=iw*3:ih*3:flags=" ++ algo)%string;
      ("scale=iw*4:ih*4:flags=" ++ algo)%string;
      ("scale='trunc(oh*a/2)*2':720:flags=" ++ algo)%string;
      ("scale='trunc(oh*a/2)*2':1080:flags=" ++ algo)%string;
      ("scale=3840:2160:flags=" ++ algo)%string ].
Proof. reflexivity. Qed.

(** Claim C5.  For a 1280x720 input, preset [2x] and algorithm [bicubic]
    the filter is [scale=iw*2:ih*2:flags=bicubic], which on that input
    asks for 2560x1440 with the bicubic flag; and for every choice of
    parameters the argument list is the input, the filter and then the
    fixed encode arguments: libx264, the chosen speed preset, the chosen
    CRF, audio copied, fast start, [output.mp4].  The [exec] call of a job
    receives exactly that list. *)
Theorem translate_2x_bicubic_and_encode_args :
  buildScaleFilter "2x" "bicubic" 1280 720 = "scale=iw*2:ih*2:flags=bicubic"
  /\ ScaleExpr.scale_target (buildScaleFilter "2x" "bicubic" 1280 720) 1280 720
     = Some (2560, 1440)
  /\ ScaleExpr.scale_flags (buildScaleFilter "2x" "bicubic" 1280 720)
     = Some "bicubic"
  /\ (forall (scale algo speed : string) (quality w h : Z),
        buildArgs (buildScaleFilter scale algo w h) speed quality
        = [ "-i"; "input"; "-vf"; buildScaleFilter scale algo w h;
            "-c:v"; "libx264"; "-preset"; speed;
            "-crf"; String_of_number quality;
            "-c:a"; "copy"; "-movflags"; "+faststart"; "output.mp4" ]%list)
  /\ String_of_number 20 = "20"
  /\ (forall (r : State) (f : File) (filter : string) (h : hstate),
        calls (snd (upscale_resume
                      {| awaiting := AwaitWrite; closure := r; job_file := f;
                         scaleFilter := filter |} Fulfilled h))
        = (calls h ++
           [ EvExec [ "-i"; "input"; "-vf"; filter;
                      "-c:v"; "libx264"; "-preset"; preset r;
                      "-crf"; String_of_number (crf r);
                      "-c:a"; "copy"; "-movflags"; "+faststart";
                      "output.mp4" ] ])%list).
Proof.
  repeat split; try reflexivity.
Qed.



(** Claim C9.  For the preset [4k] the filter is
    [scale=3840:2160:flags=<algo>] and asks for exactly 3840x2160,
    whatever the algorithm, the dimension arguments and the size (hence the
    aspect ratio) of the input. *)
Theorem preset_4k_fixed_size (algo : string) (w h iw ih : Z) :
  buildScaleFilter "4k" algo w h = "scale=3840:2160:flags=" ++ algo
  /\ ScaleExpr.scale_target (buildScaleFilter "4k" algo w h) iw ih
     = Some (3840, 2160).
Proof. split; reflexivity. Qed.

(** Claim C10.  The filter does not depend on the dimension arguments:
    any two dimension pairs give the same string for the same preset and
    algorithm, so [upscale] behaves the same whatever the preview element
    reports; and with known dimensions the presets [2x], [3x], [4x]
    still emit the relative expression [iw*N:ih*N]. *)
Theorem buildScaleFilter_ignores_dimensions
  (scale algo : string) (w1 h1 w2 h2 : Z) :
  buildScaleFilter scale algo w1 h1 = buildScaleFilter scale algo w2 h2
  /\ buildScaleFilter "2x" algo w1 h1 = "scale=iw*2:ih*2:flags=" ++ algo
  /\ buildScaleFilter "3x" algo w1 h1 = "scale=iw*3:ih*3:flags=" ++ algo
  /\ buildScaleFilter "4x" algo w1 h1 = "scale=iw*4:ih*4:flags=" ++ algo
  /\ (forall (r : State) (h : hstate),
        upscale r (Some (w1, h1)) h = upscale r (Some (w2, h2)) h).
Proof.
  repeat split.
  intros r h. unfold upscale.
  destruct (input_dims (Some (w1, h1))), (input_dims (Some (w2, h2))).
  reflexivity.
Qed.

(* ================================================================= *)
(** * Evaluating handlers *)

Ltac handler_unfold :=
  unfold step, react, dispatch, handleFile, upscale, upscale_resume,
    upscale_catch, on_progress, on_log, commit, revoke_cleanup, bind, ret,
    if_set, setFile, setInputUrl, setProgress, setStatus, setOutputUrl,
    setScale, setAlgo, setCrf, setPreset, setProcessing, set_state,
    URL_createObjectURL, URL_revokeObjectURL, fetchFile, ffmpeg_writeFile,
    ffmpeg_exec, ffmpeg_readFile, emit, disabled, deps_changed,
    option_url_eqb.

Ltac unfold_with :=
  unfold with_file, with_inputUrl, with_progress, with_status, with_outputUrl,
    with_scale, with_algo, with_crf, with_preset, with_processing in *;
  cbn in *.

(** Case analysis on whatever a handler branches on. *)
Ltac split_var :=
  repeat match goal with
  | j : Job |- _ => destruct j; cbn
  | |- context [match ?x with _ => _ end] => is_var x; destruct x; cbn
  | |- context [if ?x then _ else _] => is_var x; destruct x; cbn
  | |- context [orb ?x _] => is_var x; destruct x; cbn
  | |- context [orb _ ?x] => is_var x; destruct x; cbn
  | |- context [andb ?x _] => is_var x; destruct x; cbn
  | |- context [negb ?x] => is_var x; destruct x; cbn
  | |- context [input_dims ?v] => destruct (input_dims v); cbn
  | |- context [Nat.eqb ?x ?y] => destruct (Nat.eqb_spec x y); cbn
  | |- context [Z.gtb ?x ?y] => destruct (Z.gtb_spec x y); cbn
  end.

Ltac open_world w :=
  let r := fresh "r" in
  destruct w as [r wjob wnext wtrace];
  destruct r as [c_ffmpeg c_loading c_file c_input c_progress c_status
                 c_output c_scale c_algo c_crf c_preset c_processing];
  cbn in *;
  repeat match goal with j : Job |- _ => destruct j; cbn in * end.

(** Names the live handles of the current trace; the invariant leaves
    at most one of each kind. *)
Ltac known_live :=
  match goal with
  | Hin : held _ (live InputHandle ?t), Hout : held _ (live OutputHandle ?t) |- _ =>
      let lin := fresh "lin" in
      let lout := fresh "lout" in
      remember (live InputHandle t) as lin eqn:Elin;
      remember (live OutputHandle t) as lout eqn:Elout;
      destruct lin as [|? [|? ?]]; cbn in Hin; try contradiction;
      destruct lout as [|? [|? ?]]; cbn in Hout; try contradiction
  end.

Ltac solve_inv :=
  cbn in *; try contradiction; try discriminate;
  repeat match goal with
         | H : Some _ = Some _ |- _ => injection H as H; subst
         end;
  split_var; cbn; try lia; try congruence; auto.

(* ================================================================= *)
(** * Progress *)









(* ================================================================= *)
(** * Traces and the invariant *)

Lemma live_app (k : Kind) (t c : list event) :
  live k (t ++ c) = live_from k (live k t) c.
Proof. unfold live, live_from. apply fold_left_app. Qed.

Lemma never_two_from_app (k : Kind) (t c : list event) (l : list url) :
  never_two_from k l (t ++ c)
  = never_two_from k l t && never_two_from k (live_from k l t) c.
Proof.
  revert l. induction t as [|e t IH]; intros l; cbn [app never_two_from].
  - unfold live_from; cbn.
    destruct c; cbn;
      now rewrite ?andb_true_r, ?andb_diag, ?andb_assoc, ?andb_diag.
  - rewrite IH. unfold live_from; cbn. now rewrite andb_assoc.
Qed.

Lemma never_two_app (k : Kind) (t c : list event) :
  never_two k (t ++ c) = never_two k t && never_two_from k (live k t) c.
Proof. apply never_two_from_app. Qed.

Lemma held_length (cell : option url) (l : list url) :
  held cell l -> (List.length l <= 1)%nat.
Proof. destruct l as [|? [|? ?]]; cbn; intros; try contradiction; lia. Qed.

Lemma option_url_eqb_refl (a : option url) : option_url_eqb a a = true.
Proof. destruct a; cbn; [apply Nat.eqb_refl | reflexivity]. Qed.

Lemma Inv_mounted (ready : bool) : Inv (mounted ready).
Proof. constructor; vm_compute; auto. Qed.

Lemma Inv_step (w : World) (i : Input) : Inv w -> Inv (step w i).
Proof.
  intros [Hin Hout Fin Fout Hist Hjob].
  open_world w. known_live.
  all: destruct i; handler_unfold; cbn; split_var.
  all: constructor; cbn;
    rewrite ?app_nil_r, ?never_two_app, ?live_app, <- ?Elin, <- ?Elout, ?Hist;
    try assumption; solve_inv.
Qed.

Lemma Inv_run (w : World) (inputs : list Input) : Inv w -> Inv (run w inputs).
Proof.
  revert w. induction inputs as [|i inputs IH]; intros w I; cbn.
  - exact I.
  - apply IH, Inv_step, I.
Qed.

Lemma Inv_reachable (ready : bool) (inputs : list Input) :
  Inv (run (mounted ready) inputs).
Proof. apply Inv_run, Inv_mounted. Qed.

(** One job from file selection to the result, call by call. *)
Example one_job_trace :
  let w := run (mounted true)
               (SelectFile (Some clip) :: job_until_read
                  ++ [Settle Fulfilled])%list in
  trace w
  = [ EvCreateURL InputHandle 0%nat;
      EvFetchFile clip;
      EvWriteFile "input" clip;
      EvExec [ "-i"; "input"; "-vf"; "scale=iw*2:ih*2:flags=lanczos";
               "-c:v"; "libx264"; "-preset"; "medium"; "-crf"; "20";
               "-c:a"; "copy"; "-movflags"; "+faststart"; "output.mp4" ];
      EvReadFile "output.mp4";
      EvCreateURL OutputHandle 1%nat;
      EvRevokeURL 0%nat ]
  /\ status (st w) = "Done"
  /\ outputUrl (st w) = Some 1%nat
  /\ processing (st w) = false
  /\ job w = None.
Proof. vm_compute. repeat split. Qed.

(* ================================================================= *)
(** * Starting a run *)

Lemma disabled_click_is_noop (w : World) (video : option (Z * Z)) :
  disabled (st w) = true -> step w (ClickStart video) = w.
Proof.
  intros D. open_world w. handler_unfold. cbn. unfold disabled in D. cbn in D.
  rewrite D. cbn.
  split_var; cbn; rewrite ?app_nil_r; try reflexivity; congruence.
Qed.

(** [if (!ffmpeg || !file) return;] *)
Lemma upscale_guard (r : State) (video : option (Z * Z)) (h : hstate) :
  ffmpeg r = false \/ file r = None -> upscale r video h = (None, h).
Proof.
  intros [E | E]; unfold upscale; rewrite E; [reflexivity|].
  destruct (ffmpeg r); reflexivity.
Qed.

(** [upscale] never looks at [processing]: with an engine and a file
    within the limit it starts a job. *)
Lemma upscale_starts_job
  (r : State) (f : File) (video : option (Z * Z)) (h : hstate) :
  ffmpeg r = true -> file r = Some f -> size f <= maxBytes ->
  exists j,
    fst (upscale r video h) = Some j
    /\ awaiting j = AwaitFetch /\ job_file j = f
    /\ calls (snd (upscale r video h)) = (calls h ++ [EvFetchFile f])%list.
Proof.
  intros E F S. unfold upscale. rewrite E, F.
  assert (G : (size f >? maxBytes) = false)
    by (rewrite Z.gtb_ltb; apply Z.ltb_ge; lia).
  handler_unfold. cbn. rewrite G. destruct (input_dims video).
  eexists. repeat split.
Qed.

Lemma upscale_oversize
  (r : State) (f : File) (video : option (Z * Z)) (h : hstate) :
  ffmpeg r = true -> file r = Some f -> size f > maxBytes ->
  upscale r video h
  = (None, {| queued := with_processing false (with_status too_large
                          (with_status "Preparing..." (with_progress 0
                             (with_processing true (queued h)))));
              fresh := fresh h; calls := calls h |}).
Proof.
  intros E F S. unfold upscale. rewrite E, F.
  assert (G : (size f >? maxBytes) = true) by (apply Z.gtb_lt; lia).
  handler_unfold. cbn. now rewrite G.
Qed.

Lemma oversize_click (w : World) (f : File) (video : option (Z * Z)) :
  disabled (st w) = false -> file (st w) = Some f -> size f > maxBytes ->
  step w (ClickStart video)
  = {| st := with_status too_large (with_progress 0 (st w));
       job := None; next_url := next_url w; trace := trace w |}.
Proof.
  intros D F S. open_world w. subst. unfold disabled in D.
  destruct c_ffmpeg, c_loading, c_processing; try discriminate D.
  handler_unfold. cbn.
  split_var; unfold_with; rewrite ?app_nil_r; try reflexivity; try lia;
    congruence.
Qed.

(** Claim C1, as the code has it.  A start through the button is an
    immediate no-op (state, pending job and calls unchanged) when the
    engine is not ready, no file is selected, or a run is active; the
    active-run check is the button's [disabled] flag, [upscale] itself
    returns early only for a missing engine or file.  With a file above
    300 MiB the start is rejected without being a no-op: progress is
    reset and the status becomes the size-limit message.  In all four
    cases no call is made and no job is started. *)
Theorem start_rejected_without_engine_call
  (ready : bool) (inputs : list Input) (video : option (Z * Z)) :
  let w := run (mounted ready) inputs in
  let w' := step w (ClickStart video) in
  (ffmpeg (st w) = false \/ file (st w) = None \/ processing (st w) = true
   \/ exists f, file (st w) = Some f /\ size f > maxBytes) ->
  trace w' = trace w
  /\ engine_calls (trace w') = engine_calls (trace w)
  /\ job w' = job w
  /\ (ffmpeg (st w) = false \/ file (st w) = None \/ processing (st w) = true ->
      w' = w)
  /\ (disabled (st w) = false ->
      st w' = with_status too_large (with_progress 0 (st w)))
  /\ (forall h, ffmpeg (st w) = false \/ file (st w) = None ->
                upscale (st w) video h = (None, h)).
Proof.
  intros w w' H.
  assert (N : disabled (st w) = true -> w' = w)
    by apply disabled_click_is_noop.
  assert (D : ffmpeg (st w) = false \/ file (st w) = None
              \/ processing (st w) = true -> disabled (st w) = true).
  { unfold disabled. intros [E | [E | E]]; rewrite E; cbn;
      rewrite ?orb_true_r; reflexivity. }
  assert (O : disabled (st w) = false ->
              w' = {| st := with_status too_large (with_progress 0 (st w));
                      job := None; next_url := next_url w;
                      trace := trace w |}).
  { intros E. destruct H as [H | [H | [H | (f & F & S)]]].
    1-3: rewrite D in E by tauto; discriminate E.
    now apply oversize_click with f. }
  assert (J : disabled (st w) = false -> job w = None).
  { intros E. pose proof (inv_job _ (Inv_reachable ready inputs)) as J.
    fold w in J. unfold disabled in E. destruct (job w); [|reflexivity].
    rewrite J in E. now rewrite orb_true_r in E. }
  assert (T : trace w' = trace w)
    by (destruct (disabled (st w)) eqn:E; [now rewrite N | now rewrite O]).
  repeat split.
  - exact T.
  - now rewrite T.
  - destruct (disabled (st w)) eqn:E; [now rewrite N | rewrite O, J; auto].
  - intros H'. apply N, D, H'.
  - intros E. now rewrite O.
  - intros h H'. now apply upscale_guard.
Qed.

(** A start with the oversize file selected. *)
Lemma start_rejected_without_engine_call_witness :
  let w := run (mounted true) [ SelectFile (Some big) ] in
  let w' := step w (ClickStart None) in
  trace w' = trace w /\ job w' = job w.
Proof.
  intros w w'.
  destruct (start_rejected_without_engine_call true [ SelectFile (Some big) ] None)
    as (T & _ & J & _).
  - right; right; right. exists big. split; vm_compute; reflexivity.
  - split; [exact T | exact J].
Defined.

(** Claim C1 as stated fails: with the engine ready and a file one byte
    over the limit selected, the start changes the status text, so it is
    not a no-op. *)
Lemma oversize_start_is_not_a_noop :
  let w := run (mounted true) [ SelectFile (Some big) ] in
  let w' := step w (ClickStart None) in
  ffmpeg (st w) = true
  /\ file (st w) = Some big
  /\ size big > maxBytes
  /\ status (st w) = EmptyString
  /\ status (st w') = "File too large. Please use a file under 300MB."
  /\ w' <> w.
Proof.
  vm_compute. repeat split; try discriminate.
Qed.

(** Claim C2.  With the engine ready, no run active and a selected file
    larger than 300 MiB, a start fails within the click itself: the
    status text is the size-limit message, no call at all is made (so no
    [writeFile], [exec] or [readFile]), no job is left pending, the
    running flag is clear and the output cell and the URL counter are
    untouched. *)
Theorem oversize_file_fails_before_engine
  (w : World) (f : File) (video : option (Z * Z)) :
  ffmpeg (st w) = true -> loadingCore (st w) = false ->
  processing (st w) = false ->
  file (st w) = Some f -> size f > maxBytes ->
  let w' := step w (ClickStart video) in
  maxBytes = 300 * 2 ^ 20
  /\ status (st w') = "File too large. Please use a file under 300MB."
  /\ trace w' = trace w
  /\ engine_calls (trace w') = engine_calls (trace w)
  /\ job w' = None
  /\ processing (st w') = false
  /\ outputUrl (st w') = outputUrl (st w)
  /\ next_url w' = next_url w
  /\ (forall h : hstate,
        fst (upscale (st w) video h) = None
        /\ calls (snd (upscale (st w) video h)) = calls h
        /\ fresh (snd (upscale (st w) video h)) = fresh h).
Proof.
  intros E L P F S w'.
  assert (D : disabled (st w) = false)
    by (unfold disabled; now rewrite E, L, P, F).
  unfold w'. rewrite (oversize_click w f video D F S). cbn.
  repeat split; try reflexivity; try assumption;
    now rewrite (upscale_oversize _ f).
Qed.

(** The oversize file, selected on a page whose engine is ready. *)
Lemma oversize_file_fails_before_engine_witness :
  let w := run (mounted true) [ SelectFile (Some big) ] in
  let w' := step w (ClickStart (Some (1280, 720))) in
  status (st w') = "File too large. Please use a file under 300MB."
  /\ trace w' = trace w
  /\ job w' = None.
Proof.
  intros w w'.
  assert (G : size big > maxBytes) by (vm_compute; reflexivity).
  destruct (oversize_file_fails_before_engine w big (Some (1280, 720))
              eq_refl eq_refl eq_refl eq_refl G)
    as (_ & S & T & _ & J & _).
  split; [exact S | split; [exact T | exact J]].
Defined.

(* ================================================================= *)
(** * A failing run *)

Lemma settle_without_job (w : World) (o : outcome) :
  job w = None -> step w (Settle o) = w.
Proof.
  intros J. destruct w as [r j n t]. cbn in J. subst j.
  unfold step, react, dispatch, bind, ret, commit, deps_changed. cbn.
  rewrite !option_url_eqb_refl. cbn. now rewrite app_nil_r.
Qed.

Lemma rejected_step (w : World) (j : Job) (message : option string) :
  job w = Some j ->
  step w (Settle (Rejected message))
  = {| st := with_processing false
               (with_status (or_default message "Upscaling failed") (st w));
       job := None; next_url := next_url w; trace := trace w |}.
Proof.
  intros J. destruct w as [r j' n t]. cbn in J. subst j'.
  unfold step, react, dispatch, upscale_resume, upscale_catch, bind, ret,
    commit, deps_changed, setStatus, setProcessing, set_state. cbn.
  destruct r; cbn. rewrite !option_url_eqb_refl. cbn. now rewrite app_nil_r.
Qed.

(** Claim C7.  When the promise a job awaits is rejected, whichever of
    [fetchFile], [writeFile], [exec] and [readFile] it was, the status
    text becomes the error's message, or "Upscaling failed" when the
    error has no (or an empty) message; the running flag is cleared, the
    job is gone and later settlements do nothing, and no call is made: no
    output handle is created and the output cell keeps its value. *)
Theorem failure_sets_status_and_stops
  (w : World) (j : Job) (message : option string) :
  job w = Some j ->
  let w' := step w (Settle (Rejected message)) in
  status (st w') = or_default message "Upscaling failed"
  /\ (forall m, message = Some m -> m <> EmptyString -> status (st w') = m)
  /\ (message = None -> status (st w') = "Upscaling failed")
  /\ processing (st w') = false
  /\ job w' = None
  /\ outputUrl (st w') = outputUrl (st w)
  /\ trace w' = trace w
  /\ live OutputHandle (trace w') = live OutputHandle (trace w)
  /\ (forall o, step w' (Settle o) = w').
Proof.
  intros J w'. unfold w'. rewrite (rejected_step w j message J).
  repeat split; try reflexivity.
  - intros m -> Hm. cbn.
    destruct (String.eqb_spec m EmptyString); [contradiction|reflexivity].
  - intros ->. reflexivity.
  - intros o. now apply settle_without_job.
Qed.

(** A job whose [exec] is rejected, with and without a message. *)
Lemma failure_sets_status_and_stops_witness :
  let w := run (mounted true)
               [ SelectFile (Some clip); ClickStart None; Settle Fulfilled;
                 Settle Fulfilled ] in
  status (st (step w (Settle (Rejected (Some "FS error"))))) = "FS error"
  /\ status (st (step w (Settle (Rejected None)))) = "Upscaling failed"
  /\ processing (st (step w (Settle (Rejected None)))) = false.
Proof.
  intros w.
  pose (j := {| awaiting := AwaitExec;
                closure := st (run (mounted true) [ SelectFile (Some clip) ]);
                job_file := clip;
                scaleFilter := "scale=iw*2:ih*2:flags=lanczos" |}).
  assert (J : job w = Some j) by (vm_compute; reflexivity).
  destruct (failure_sets_status_and_stops w j (Some "FS error") J)
    as (_ & M & _).
  destruct (failure_sets_status_and_stops w j None J)
    as (_ & _ & N & P & _).
  split; [|split].
  - apply (M "FS error"); [reflexivity | discriminate].
  - apply N. reflexivity.
  - exact P.
Defined.

(* ================================================================= *)
(** * Handles *)

Lemma select_calls (w : World) (f : File) :
  exists rest,
    calls (snd (react w (SelectFile (Some f))))
    = (revokes (inputUrl (st w))
         ++ EvCreateURL InputHandle (next_url w) :: rest)%list
    /\ forallb (fun e => negb (is_create InputHandle e)
                         && negb (is_create OutputHandle e)) rest = true.
Proof.
  open_world w. handler_unfold. cbn.
  split_var; cbn; eexists; split; reflexivity.
Qed.


(** The last step of a successful job. *)
Lemma success_step (w : World) (j : Job) :
  Inv w -> job w = Some j -> awaiting j = AwaitRead ->
  let w' := step w (Settle Fulfilled) in
  outputUrl (st w') = Some (next_url w)
  /\ live OutputHandle (trace w') = [next_url w]
  /\ status (st w') = "Done"
  /\ processing (st w') = false
  /\ job w' = None
  /\ (forall u0, In u0 (live OutputHandle (trace w)) ->
        outputUrl (st w) = Some u0 /\ u0 <> next_url w
        /\ In (EvRevokeURL u0) (calls (snd (react w (Settle Fulfilled))))
        /\ ~ In u0 (live OutputHandle (trace w'))).
Proof.
  intros [Hin Hout Fin Fout Hist Hjob] J A.
  open_world w. subst. known_live.
  all: handler_unfold; cbn; split_var; cbn;
    rewrite ?live_app, <- ?Elout; cbn in *;
    repeat match goal with
           | H : Some _ = Some _ |- _ => injection H as H; subst
           end;
    split_var; try lia; try congruence.
  all: repeat apply conj; try reflexivity.
  all: intros x Hx; cbn in Hx; try contradiction; destruct Hx as [<- | []].
  all: repeat apply conj; try reflexivity; try lia; cbn; try tauto.
Qed.

(** The calls of that step start with the creation of the new handle. *)
Lemma success_calls (w : World) (j : Job) :
  job w = Some j -> awaiting j = AwaitRead ->
  exists rest,
    calls (snd (react w (Settle Fulfilled)))
    = EvCreateURL OutputHandle (next_url w) :: rest.
Proof.
  intros J A. open_world w. subst.
  handler_unfold; cbn; split_var; cbn; eexists; reflexivity.
Qed.

Lemma unmount_releases_all (ready : bool) (inputs : list Input) (k : Kind) :
  live k (trace (unmount (run (mounted ready) inputs))) = [].
Proof.
  destruct (Inv_reachable ready inputs) as [Hin Hout _ _ _ _].
  generalize dependent (run (mounted ready) inputs). intros w Hin Hout.
  open_world w. known_live.
  all: destruct k; unfold unmount; handler_unfold; cbn; split_var; cbn;
    rewrite ?app_nil_r, ?live_app, <- ?Elin, <- ?Elout; solve_inv.
Qed.

(** Claim C3, as the code has it.  At most one input handle is live at
    any time, and selecting a file revokes the previous input handle (if
    any) before it creates the next one, and creates nothing else.  For
    output handles the order is the other way round: the last step of a
    successful job first creates the new handle, and the handle held
    before it is revoked by the effect cleanup of the re-render that
    follows; so at most one output handle is live after every step. *)
Theorem one_handle_of_each_kind (ready : bool) (inputs : list Input) :
  let w := run (mounted ready) inputs in
  never_two InputHandle (trace w) = true
  /\ (List.length (live InputHandle (trace w)) <= 1)%nat
  /\ (List.length (live OutputHandle (trace w)) <= 1)%nat
  /\ (forall f : File,
        exists rest,
          calls (snd (react w (SelectFile (Some f))))
          = (revokes (inputUrl (st w))
               ++ EvCreateURL InputHandle (next_url w) :: rest)%list
          /\ forallb (fun e => negb (is_create InputHandle e)
                               && negb (is_create OutputHandle e)) rest = true)
  /\ (forall j : Job,
        job w = Some j -> awaiting j = AwaitRead ->
        exists rest,
          calls (snd (react w (Settle Fulfilled)))
          = EvCreateURL OutputHandle (next_url w) :: rest
          /\ forall u0, In u0 (live OutputHandle (trace w)) ->
                        In (EvRevokeURL u0) rest).
Proof.
  intros w. pose proof (Inv_reachable ready inputs) as I. fold w in I.
  pose proof (inv_input _ I) as Hin. pose proof (inv_output _ I) as Hout.
  pose proof (inv_history _ I) as Hist.
  repeat split.
  - exact Hist.
  - eapply held_length, Hin.
  - eapply held_length, Hout.
  - intros f. apply select_calls.
  - intros j J A.
    destruct (success_calls w j J A) as [rest R].
    destruct (success_step w j I J A) as (_ & _ & _ & _ & _ & P).
    exists rest. split; [exact R|].
    intros u0 L. destruct (P u0 L) as (_ & _ & Hr & _).
    rewrite R in Hr. destruct Hr as [Hr | Hr]; [discriminate Hr | exact Hr].
Qed.

(** A second job on the same file, about to finish: its last step
    creates handle 2 and only then revokes handle 1. *)
Lemma one_handle_of_each_kind_witness :
  let w := run (mounted true)
               (SelectFile (Some clip) :: job_until_read
                  ++ Settle Fulfilled :: job_until_read)%list in
  live OutputHandle (trace w) = [1%nat]
  /\ exists rest,
       calls (snd (react w (Settle Fulfilled)))
       = EvCreateURL OutputHandle 2%nat :: rest
       /\ In (EvRevokeURL 1%nat) rest.
Proof.
  intros w.
  destruct (one_handle_of_each_kind true
              (SelectFile (Some clip) :: job_until_read
                 ++ Settle Fulfilled :: job_until_read)%list)
    as (_ & _ & _ & _ & S).
  pose (j := {| awaiting := AwaitRead;
                closure := st (run (mounted true)
                                 (SelectFile (Some clip) :: job_until_read
                                    ++ [Settle Fulfilled])%list);
                job_file := clip;
                scaleFilter := "scale=iw*2:ih*2:flags=lanczos" |}).
  assert (L : live OutputHandle (trace w) = [1%nat])
    by (vm_compute; reflexivity).
  destruct (S j) as (rest & R & V).
  - vm_compute; reflexivity.
  - reflexivity.
  - split; [exact L|]. exists rest. split; [exact R|].
    apply V. fold w. rewrite L. left. reflexivity.
Defined.

(** Claim C3 as stated fails for output handles: when a second job on
    the same file succeeds, handle 2 is created while handle 1 is still
    live, and handle 1 is revoked afterwards. *)
Lemma second_output_created_before_first_released :
  let w := run (mounted true)
               (SelectFile (Some clip) :: job_until_read
                  ++ Settle Fulfilled :: job_until_read
                  ++ [Settle Fulfilled])%list in
  never_two OutputHandle (trace w) = false
  /\ nth_error (trace w) 11 = Some (EvCreateURL OutputHandle 2%nat)
  /\ live OutputHandle (firstn 11 (trace w)) = [1%nat]
  /\ live OutputHandle (firstn 12 (trace w)) = [1%nat; 2%nat]
  /\ live OutputHandle (trace w) = [2%nat].
Proof. vm_compute. repeat split. Qed.



(* ================================================================= *)
(** * More on the translator *)

Lemma eval_dims_times (N iw ih : Z) :
  ScaleExpr.eval_dims
    (ScaleExpr.Bin ScaleExpr.Mul (ScaleExpr.Var "iw") (ScaleExpr.Num N))
    (ScaleExpr.Bin ScaleExpr.Mul (ScaleExpr.Var "ih") (ScaleExpr.Num N))
    iw ih
  = Some (iw * N, ih * N).
Proof.
  unfold ScaleExpr.eval_dims. cbn.
  unfold ScaleExpr.Qtrunc, Qmult, inject_Z; cbn [Qnum Qden].
  change (Z.pos (1 * 1)) with 1. now rewrite !Z.quot_1_r.
Qed.

(** Property X1.  The presets [2x], [3x] and [4x] ask for exactly two, three and
    four times the width and the height of the input, whatever its size,
    the algorithm and the dimension arguments. *)
Theorem multiplicative_presets_exact (algo : string) (w h iw ih : Z) :
  ScaleExpr.scale_target (buildScaleFilter "2x" algo w h) iw ih
  = Some (iw * 2, ih * 2)
  /\ ScaleExpr.scale_target (buildScaleFilter "3x" algo w h) iw ih
     = Some (iw * 3, ih * 3)
  /\ ScaleExpr.scale_target (buildScaleFilter "4x" algo w h) iw ih
     = Some (iw * 4, ih * 4).
Proof.
  unfold ScaleExpr.scale_target.
  change (ScaleExpr.scale_exprs (buildScaleFilter "2x" algo w h))
    with (Some (ScaleExpr.Bin ScaleExpr.Mul (ScaleExpr.Var "iw") (ScaleExpr.Num 2),
                ScaleExpr.Bin ScaleExpr.Mul (ScaleExpr.Var "ih") (ScaleExpr.Num 2))).
  change (ScaleExpr.scale_exprs (buildScaleFilter "3x" algo w h))
    with (Some (ScaleExpr.Bin ScaleExpr.Mul (ScaleExpr.Var "iw") (ScaleExpr.Num 3),
                ScaleExpr.Bin ScaleExpr.Mul (ScaleExpr.Var "ih") (ScaleExpr.Num 3))).
  change (ScaleExpr.scale_exprs (buildScaleFilter "4x" algo w h))
    with (Some (ScaleExpr.Bin ScaleExpr.Mul (ScaleExpr.Var "iw") (ScaleExpr.Num 4),
                ScaleExpr.Bin ScaleExpr.Mul (ScaleExpr.Var "ih") (ScaleExpr.Num 4))).
  cbv beta iota. rewrite !eval_dims_times. repeat split.
Qed.

(** Property X2.  A scale value that is none of the six presets takes the
    [default] branch of the switch and is translated like [2x]. *)
Theorem unknown_preset_is_2x (scale algo : string) (w h : Z) :
  ~ In scale scalePresets ->
  buildScaleFilter scale algo w h = "scale=iw*2:ih*2:flags=" ++ algo.
Proof.
  intros N. unfold buildScaleFilter.
  repeat match goal with
         | |- context [String.eqb scale ?p] =>
             destruct (String.eqb_spec scale p) as [E | _];
             [exfalso; apply N; rewrite E; cbn; tauto |]
         end.
  reflexivity.
Qed.

Lemma unknown_preset_is_2x_witness :
  buildScaleFilter "8k" "bicubic" 1920 1080 = "scale=iw*2:ih*2:flags=bicubic".
Proof.
  apply (unknown_preset_is_2x "8k" "bicubic" 1920 1080).
  cbn. intros H.
  repeat (destruct H as [H | H]; [discriminate H |]). exact H.
Defined.




(* ================================================================= *)
(** * The download name *)

Lemma ext_chars_dot (a b : string) : ext_chars (a ++ String "." b) = false.
Proof.
  induction a as [|c a IH]; cbn.
  - reflexivity.
  - rewrite IH. apply andb_false_r.
Qed.

Lemma is_extension_dot (a b : string) : is_extension (a ++ String "." b) = false.
Proof.
  destruct a as [|c a]; [reflexivity|].
  change (is_extension (String c a ++ String "." b))
    with (ext_chars (String c a ++ String "." b)).
  apply ext_chars_dot.
Qed.

Lemma strip_extension_split (base ext : string) :
  is_extension ext = true ->
  strip_extension (base ++ String "." ext) = base.
Proof.
  intros E. induction base as [|c base IH]; cbn.
  - now rewrite E.
  - rewrite is_extension_dot, andb_false_r. now rewrite IH.
Qed.

Lemma strip_extension_prefix (s : string) :
  exists rest, s = strip_extension s ++ rest.
Proof.
  induction s as [|c s [rest IH]]; cbn.
  - exists EmptyString. reflexivity.
  - destruct (Ascii.eqb c "." && is_extension s).
    + exists (String c s). reflexivity.
    + exists rest. cbn. now rewrite <- IH.
Qed.

Lemma strip_extension_none (s : string) :
  (forall base ext, s = base ++ String "." ext -> is_extension ext = false) ->
  strip_extension s = s.
Proof.
  induction s as [|c s IH]; intros H; cbn; [reflexivity|].
  destruct (Ascii.eqb_spec c ".") as [-> | N]; cbn.
  - rewrite (H EmptyString s eq_refl). f_equal. apply IH.
    intros base ext ->. apply (H (String "." base) ext). reflexivity.
  - f_equal. apply IH.
    intros base ext ->. apply (H (String c base) ext). reflexivity.
Qed.

(** Property X15.  For a file named [base.ext], where [ext] is not empty and has
    no [.] and no [/], the download is offered as [upscaled-base.mp4];
    when [base] is empty (a name such as [.mp4]) it is
    [upscaled-video.mp4]. *)
Theorem download_name_replaces_extension (base ext : string) (n : Z) :
  is_extension ext = true ->
  downloadName (Some {| name := base ++ String "." ext; size := n |})
  = "upscaled-"
    ++ (if String.eqb base EmptyString then "video" else base) ++ ".mp4".
Proof.
  intros E. unfold downloadName. cbn [option_map name or_default].
  now rewrite (strip_extension_split base ext E).
Qed.

Lemma download_name_replaces_extension_witness :
  downloadName (Some {| name := "holiday.2024.mov"; size := 5 |})
  = "upscaled-holiday.2024.mp4"
  /\ downloadName (Some {| name := ".mp4"; size := 5 |}) = "upscaled-video.mp4".
Proof.
  split.
  - apply (download_name_replaces_extension "holiday.2024" "mov" 5). reflexivity.
  - apply (download_name_replaces_extension EmptyString "mp4" 5). reflexivity.
Defined.

(** Property X16.  A name in which no dot is followed, up to the end, by a
    non-empty run of characters other than [.] and [/] (no dot at all, a
    trailing dot, a dot only inside a directory part) is kept whole:
    the download is [upscaled-<name>.mp4], or [upscaled-video.mp4] for
    the empty name. *)
Theorem download_name_without_extension (s : string) (n : Z) :
  (forall base ext, s = base ++ String "." ext -> is_extension ext = false) ->
  downloadName (Some {| name := s; size := n |})
  = "upscaled-" ++ (if String.eqb s EmptyString then "video" else s) ++ ".mp4".
Proof.
  intros H. unfold downloadName. cbn [option_map name or_default].
  now rewrite (strip_extension_none s H).
Qed.

(** Property X17.  The download name is always [upscaled-<stem>.mp4] with a
    non-empty stem: [video] when no file is selected or nothing is left
    of the name, and otherwise what precedes the removed extension, a
    prefix of the file's name. *)
Theorem download_name_shape (file : option File) :
  exists stem,
    downloadName file = "upscaled-" ++ stem ++ ".mp4"
    /\ stem <> EmptyString
    /\ (stem = "video"
        \/ exists f rest, file = Some f /\ name f = stem ++ rest).
Proof.
  unfold downloadName. destruct file as [f|]; cbn [option_map or_default].
  - destruct (String.eqb_spec (strip_extension (name f)) EmptyString) as [E | N].
    + exists "video". repeat split; [discriminate | now left].
    + exists (strip_extension (name f)). repeat split; [exact N|].
      right. destruct (strip_extension_prefix (name f)) as [rest R].
      exists f, rest. split; [reflexivity | exact R].
  - exists "video". repeat split; [discriminate | now left].
Qed.

Lemma download_name_without_extension_witness :
  downloadName (Some {| name := "README"; size := 7 |}) = "upscaled-README.mp4"
  /\ downloadName (Some {| name := "take1."; size := 7 |}) = "upscaled-take1..mp4".
Proof.
  split.
  - apply (download_name_without_extension "README" 7).
    intros base ext E. exfalso.
    repeat (destruct base as [|? base]; cbn in E;
            [discriminate E | injection E as _ E]).
    destruct base; discriminate E.
  - apply (download_name_without_extension "take1." 7).
    intros base ext E.
    repeat (destruct base as [|? base]; cbn in E;
            [discriminate E | injection E as _ E]).
    destruct base as [|? base]; cbn in E.
    + injection E as <-. reflexivity.
    + injection E as _ E. destruct base; discriminate E.
Defined.
(* ================================================================= *)
(** * A job from start to result *)

Lemma File_eqb_refl (f : File) : File_eqb f f = true.
Proof. unfold File_eqb. now rewrite String.eqb_refl, Z.eqb_refl. Qed.

Lemma click_accepted (w : World) (f : File) (video : option (Z * Z)) :
  disabled (st w) = false -> file (st w) = Some f -> size f <= maxBytes ->
  step w (ClickStart video)
  = {| st := with_status "Preparing..."
               (with_progress 0 (with_processing true (st w)));
       job := Some {| awaiting := AwaitFetch; closure := st w; job_file := f;
                      scaleFilter :=
                        buildScaleFilter (scale (st w)) (algo (st w)) 0 0 |};
       next_url := next_url w;
       trace := (trace w ++ [EvFetchFile f])%list |}.
Proof.
  intros D F S. open_world w. subst. unfold disabled in D.
  destruct c_ffmpeg, c_loading, c_processing; try discriminate D.
  handler_unfold. cbn.
  split_var; unfold_with; try reflexivity; try lia; congruence.
Qed.

(** Property X4.  The size guard is strict: with the button enabled and a file of
    at most 300 MiB (exactly 300 MiB included) the click starts a job.
    The running flag is set, progress is 0, the status is
    "Preparing...", [fetchFile] is the only call, and the suspended job
    has captured the file, the render it was started from and the
    filter built from that render's scale and algorithm. *)
Theorem start_accepted_up_to_limit
  (w : World) (f : File) (video : option (Z * Z)) :
  disabled (st w) = false -> file (st w) = Some f -> size f <= maxBytes ->
  let w' := step w (ClickStart video) in
  trace w' = (trace w ++ [EvFetchFile f])%list
  /\ processing (st w') = true
  /\ progress (st w') = 0
  /\ status (st w') = "Preparing..."
  /\ job w'
     = Some {| awaiting := AwaitFetch; closure := st w; job_file := f;
               scaleFilter :=
                 buildScaleFilter (scale (st w)) (algo (st w)) 0 0 |}
  /\ start_disabled (render (st w')) = true.
Proof.
  intros D F S w'. unfold w'. rewrite (click_accepted w f video D F S).
  repeat split. cbn. unfold disabled. cbn. apply orb_true_r.
Qed.

Lemma start_accepted_up_to_limit_witness :
  let f := {| name := "limit.mp4"; size := 300 * 1024 * 1024 |} in
  let w := run (mounted true) [ SelectFile (Some f) ] in
  trace (step w (ClickStart None)) = (trace w ++ [EvFetchFile f])%list
  /\ processing (st (step w (ClickStart None))) = true.
Proof.
  intros f w.
  destruct (start_accepted_up_to_limit w f None) as (T & P & _).
  - reflexivity.
  - reflexivity.
  - vm_compute. discriminate.
  - split; [exact T | exact P].
Defined.

Ltac settle_eval :=
  unfold step, react, dispatch, upscale_resume, bind, ret, commit,
    deps_changed, setStatus, setOutputUrl, setProcessing, set_state,
    ffmpeg_writeFile, ffmpeg_exec, ffmpeg_readFile, URL_createObjectURL,
    emit, suspend;
  cbn.

Lemma settle_fetch (w : World) (j : Job) :
  job w = Some j -> awaiting j = AwaitFetch ->
  step w (Settle Fulfilled)
  = {| st := st w; job := Some (suspend AwaitWrite j); next_url := next_url w;
       trace := (trace w ++ [EvWriteFile "input" (job_file j)])%list |}.
Proof.
  intros J A. destruct w as [r j' n t], j as [a c f s]. cbn in *. subst.
  settle_eval. now rewrite !option_url_eqb_refl.
Qed.

Lemma settle_write (w : World) (j : Job) :
  job w = Some j -> awaiting j = AwaitWrite ->
  step w (Settle Fulfilled)
  = {| st := with_status "Upscaling..." (st w);
       job := Some (suspend AwaitExec j); next_url := next_url w;
       trace := (trace w ++
                 [EvExec (buildArgs (scaleFilter j) (preset (closure j))
                            (crf (closure j)))])%list |}.
Proof.
  intros J A. destruct w as [r j' n t], j as [a c f s]. cbn in *. subst.
  settle_eval. destruct r; cbn. now rewrite !option_url_eqb_refl.
Qed.

Lemma settle_exec (w : World) (j : Job) :
  job w = Some j -> awaiting j = AwaitExec ->
  step w (Settle Fulfilled)
  = {| st := st w; job := Some (suspend AwaitRead j); next_url := next_url w;
       trace := (trace w ++ [EvReadFile "output.mp4"])%list |}.
Proof.
  intros J A. destruct w as [r j' n t], j as [a c f s]. cbn in *. subst.
  settle_eval. now rewrite !option_url_eqb_refl.
Qed.

Lemma settle_read (w : World) (j : Job) :
  job w = Some j -> awaiting j = AwaitRead ->
  below (next_url w) (outputUrl (st w)) ->
  step w (Settle Fulfilled)
  = {| st := with_processing false
               (with_status "Done" (with_outputUrl (Some (next_url w)) (st w)));
       job := None; next_url := S (next_url w);
       trace := (trace w ++ EvCreateURL OutputHandle (next_url w)
                   :: revokes (inputUrl (st w)) ++ revokes (outputUrl (st w)))%list |}.
Proof.
  intros J A B. destruct w as [r j' n t], j as [a c f s]. cbn in *. subst.
  settle_eval. destruct r as [? ? ? i ? ? o ? ? ? ? ?]. cbn in *.
  rewrite option_url_eqb_refl. cbn.
  assert (E : option_url_eqb o (Some n) = false).
  { destruct o as [u|]; cbn in *; [|reflexivity]. apply Nat.eqb_neq. lia. }
  rewrite E. unfold revoke_cleanup, bind, if_set, URL_revokeObjectURL, emit, ret.
  destruct i, o; cbn; rewrite <- ?app_assoc; reflexivity.
Qed.

(** Property X5.  A start on an enabled button with a file within the limit,
    followed by four fulfilled promises, makes exactly these calls, in
    this order: [fetchFile] of the file, [writeFile] of it as [input],
    [exec] with the arguments built from the parameters at the click,
    [readFile] of [output.mp4], the creation of the output URL, and
    then the effect cleanup's revocations of the URLs held before.  It
    ends with status "Done", the running flag clear, no job pending,
    and the result panel showing the new URL with the download name of
    the file. *)
Theorem job_runs_to_done
  (ready : bool) (inputs : list Input) (f : File) (video : option (Z * Z)) :
  let w := run (mounted ready) inputs in
  disabled (st w) = false -> file (st w) = Some f -> size f <= maxBytes ->
  let w' := run w [ ClickStart video; Settle Fulfilled; Settle Fulfilled;
                    Settle Fulfilled; Settle Fulfilled ] in
  trace w'
  = (trace w ++
     [ EvFetchFile f;
       EvWriteFile "input" f;
       EvExec (buildArgs (buildScaleFilter (scale (st w)) (algo (st w)) 0 0)
                 (preset (st w)) (crf (st w)));
       EvReadFile "output.mp4";
       EvCreateURL OutputHandle (next_url w) ]
     ++ revokes (inputUrl (st w)) ++ revokes (outputUrl (st w)))%list
  /\ status (st w') = "Done"
  /\ processing (st w') = false
  /\ job w' = None
  /\ result (render (st w')) = Some (next_url w, downloadName (Some f)).
Proof.
  intros w D F S w'.
  pose proof (inv_output_below _ (Inv_reachable ready inputs)) as B. fold w in B.
  unfold w', run. cbn [fold_left].
  rewrite (click_accepted w f video D F S).
  match goal with
  | |- context [step ?x (Settle Fulfilled)] =>
      lazymatch x with
      | context [step] => fail
      | _ => erewrite (settle_fetch x) by reflexivity
      end
  end.
  match goal with
  | |- context [step ?x (Settle Fulfilled)] =>
      lazymatch x with
      | context [step] => fail
      | _ => erewrite (settle_write x) by reflexivity
      end
  end.
  match goal with
  | |- context [step ?x (Settle Fulfilled)] =>
      lazymatch x with
      | context [step] => fail
      | _ => erewrite (settle_exec x) by reflexivity
      end
  end.
  erewrite settle_read by (try reflexivity; exact B).
  cbn. rewrite <- !app_assoc. cbn. rewrite F. repeat split.
Qed.

Lemma job_runs_to_done_witness :
  let w := run (mounted true) [ SelectFile (Some clip); ChangePreset "fast" ] in
  let w' := run w [ ClickStart None; Settle Fulfilled; Settle Fulfilled;
                    Settle Fulfilled; Settle Fulfilled ] in
  status (st w') = "Done"
  /\ result (render (st w')) = Some (1%nat, "upscaled-clip.mp4").
Proof.
  intros w w'.
  destruct (job_runs_to_done true
              [ SelectFile (Some clip); ChangePreset "fast" ] clip None)
    as (_ & S & _ & _ & R).
  - reflexivity.
  - reflexivity.
  - vm_compute. discriminate.
  - split; [exact S | exact R].
Defined.

Lemma pending_job_kept (w : World) (j : Job) (i : Input) :
  job w = Some j -> processing (st w) = true -> is_settle i = false ->
  job (step w i) = Some j /\ processing (st (step w i)) = true.
Proof.
  intros J P N. open_world w. subst.
  destruct i; try discriminate N; handler_unfold; cbn; rewrite ?orb_true_r;
    cbn; split_var; split; reflexivity.
Qed.

Lemma pending_job_kept_run (w : World) (j : Job) (mid : list Input) :
  job w = Some j -> processing (st w) = true ->
  Forall (fun i => is_settle i = false) mid ->
  job (run w mid) = Some j /\ processing (st (run w mid)) = true.
Proof.
  intros J P F. revert w J P.
  induction F as [|i mid N F IH]; intros w J P; cbn.
  - split; assumption.
  - destruct (pending_job_kept w j i J P N) as [J' P']. now apply IH.
Qed.

(** Property X6.  A job works with what its click saw.  Whatever the user does
    between the steps of a job (selecting another file, moving the
    controls, clicking the button), and whatever progress and log events
    arrive, [writeFile] stores the file that was selected at the click,
    and [exec] receives the arguments built from the scale, algorithm,
    preset and CRF of that moment. *)
Theorem job_uses_values_at_click
  (w : World) (f : File) (video : option (Z * Z)) (mid1 mid2 : list Input) :
  disabled (st w) = false -> file (st w) = Some f -> size f <= maxBytes ->
  Forall (fun i => is_settle i = false) mid1 ->
  Forall (fun i => is_settle i = false) mid2 ->
  let w1 := run (step w (ClickStart video)) mid1 in
  let w2 := run (step w1 (Settle Fulfilled)) mid2 in
  trace (step w1 (Settle Fulfilled))
  = (trace w1 ++ [EvWriteFile "input" f])%list
  /\ trace (step w2 (Settle Fulfilled))
     = (trace w2 ++
        [EvExec (buildArgs (buildScaleFilter (scale (st w)) (algo (st w)) 0 0)
                   (preset (st w)) (crf (st w)))])%list.
Proof.
  intros D F S M1 M2 w1 w2.
  set (j := {| awaiting := AwaitFetch; closure := st w; job_file := f;
               scaleFilter :=
                 buildScaleFilter (scale (st w)) (algo (st w)) 0 0 |}).
  assert (J1 : job w1 = Some j /\ processing (st w1) = true).
  { apply pending_job_kept_run; [| | exact M1];
      now rewrite (click_accepted w f video D F S). }
  destruct J1 as [J1 P1].
  assert (E1 := settle_fetch w1 j J1 eq_refl).
  assert (J2 : job w2 = Some (suspend AwaitWrite j) /\ processing (st w2) = true).
  { apply pending_job_kept_run; [| | exact M2]; rewrite E1; [reflexivity | exact P1]. }
  destruct J2 as [J2 P2].
  split.
  - now rewrite E1.
  - now rewrite (settle_write w2 _ J2 eq_refl).
Qed.

Lemma job_uses_values_at_click_witness :
  let other := {| name := "other.webm"; size := 5 |} in
  let w := run (mounted true) [ SelectFile (Some clip) ] in
  let w1 := run (step w (ClickStart None))
                [ SelectFile (Some other); ChangeScale "4k" ] in
  let w2 := run (step w1 (Settle Fulfilled))
                [ ChangeCrf 30; ChangePreset "ultrafast"; ClickStart None ] in
  trace (step w1 (Settle Fulfilled))
  = (trace w1 ++ [EvWriteFile "input" clip])%list
  /\ trace (step w2 (Settle Fulfilled))
     = (trace w2 ++
        [EvExec [ "-i"; "input"; "-vf"; "scale=iw*2:ih*2:flags=lanczos";
                  "-c:v"; "libx264"; "-preset"; "medium"; "-crf"; "20";
                  "-c:a"; "copy"; "-movflags"; "+faststart";
                  "output.mp4" ]])%list.
Proof.
  intros other w w1 w2.
  apply (job_uses_values_at_click w clip None
           [ SelectFile (Some other); ChangeScale "4k" ]
           [ ChangeCrf 30; ChangePreset "ultrafast"; ClickStart None ]).
  - reflexivity.
  - reflexivity.
  - vm_compute. discriminate.
  - repeat constructor.
  - repeat constructor.
Defined.
(* ================================================================= *)
(** * The order of calls *)

Lemma stage_from_app (s : stage) (t c : list event) :
  stage_from s (t ++ c)
  = match stage_from s t with
    | Some s' => stage_from s' c
    | None => None
    end.
Proof.
  revert s. induction t as [|e t IH]; intros s; cbn; [reflexivity|].
  destruct (stage_step s e); [apply IH | reflexivity].
Qed.

Lemma in_order_step (w : World) (i : Input) : in_order w -> in_order (step w i).
Proof.
  unfold in_order. open_world w.
  destruct (stage_from Idle wtrace) as [s|] eqn:Es; [|contradiction].
  intros Hord.
  destruct i; handler_unfold; cbn; split_var; cbn;
    rewrite ?app_nil_r, ?stage_from_app, ?Es; cbn;
    unfold stage_of in *; cbn in *; subst; cbn;
    rewrite ?File_eqb_refl; cbn; auto.
Qed.

Lemma in_order_run (w : World) (inputs : list Input) :
  in_order w -> in_order (run w inputs).
Proof.
  revert w. induction inputs as [|i inputs IH]; intros w H; cbn;
    [exact H | apply IH, in_order_step, H].
Qed.

(** Property X7.  In every run the calls of jobs come in order: [writeFile]
    only directly after the [fetchFile] of the same file and under the
    name [input], [exec] only after that [writeFile], [readFile] of
    [output.mp4] only after that [exec], and an output URL is created
    only for what [readFile] returned; object-URL calls for the input
    may come in between.  A pending job is always at the stage its calls
    have reached, so two jobs never interleave. *)
Theorem calls_follow_job_order (ready : bool) (inputs : list Input) :
  let w := run (mounted ready) inputs in
  exists s,
    stage_from Idle (trace w) = Some s
    /\ forall j, job w = Some j -> s = stage_of j.
Proof.
  intros w.
  assert (H : in_order w) by (apply in_order_run; cbn; exact I).
  unfold in_order in H.
  destruct (stage_from Idle (trace w)) as [s|]; [|contradiction].
  exists s. split; [reflexivity|].
  intros j J. now rewrite J in H.
Qed.

(* ================================================================= *)
(** * What is shown while a job runs *)

(** Property X8.  The running flag is set exactly while a job is pending.  During
    that time the start button is disabled and reads "Upscaling?", the
    progress bar is shown, and a click on the button changes nothing;
    with no job pending the button reads "Start Upscaling". *)
Theorem running_flag_tracks_job (ready : bool) (inputs : list Input) :
  let w := run (mounted ready) inputs in
  processing (st w) = match job w with Some _ => true | None => false end
  /\ (forall j, job w = Some j ->
        start_disabled (render (st w)) = true
        /\ start_label (render (st w)) = "Upscaling?"
        /\ progress_bar (render (st w)) = Some (progress (st w))
        /\ forall video, step w (ClickStart video) = w)
  /\ (job w = None -> start_label (render (st w)) = "Start Upscaling").
Proof.
  intros w. pose proof (inv_job _ (Inv_reachable ready inputs)) as P.
  fold w in P. split; [exact P|]. split.
  - intros j J. rewrite J in P.
    assert (D : disabled (st w) = true)
      by (unfold disabled; rewrite P; apply orb_true_r).
    cbn. rewrite P. repeat split; try exact D.
    intros video. now apply disabled_click_is_noop.
  - intros J. rewrite J in P. cbn. now rewrite P.
Qed.

Lemma running_flag_tracks_job_witness :
  let w := run (mounted true)
               [ SelectFile (Some clip); ClickStart None; Settle Fulfilled ] in
  start_disabled (render (st w)) = true
  /\ start_label (render (st w)) = "Upscaling?"
  /\ step w (ClickStart (Some (640, 480))) = w.
Proof.
  intros w.
  destruct (running_flag_tracks_job true
              [ SelectFile (Some clip); ClickStart None; Settle Fulfilled ])
    as (_ & R & _).
  destruct (R {| awaiting := AwaitWrite;
                 closure := st (run (mounted true) [ SelectFile (Some clip) ]);
                 job_file := clip;
                 scaleFilter := "scale=iw*2:ih*2:flags=lanczos" |})
    as (D & L & _ & C).
  - vm_compute. reflexivity.
  - split; [exact D | split; [exact L | apply C]].
Defined.

(* ================================================================= *)
(** * Handles and what is shown *)

Lemma output_shown_live_step (w : World) (i : Input) :
  Inv w -> output_shown_live w -> output_shown_live (step w i).
Proof.
  intros [Hin Hout Fin Fout Hist Hjob] L. unfold output_shown_live in *.
  open_world w. known_live.
  all: destruct i; handler_unfold; cbn; split_var.
  all: cbn; rewrite ?app_nil_r, ?live_app, <- ?Elout; solve_inv.
Qed.

Lemma output_shown_live_run (w : World) (inputs : list Input) :
  Inv w -> output_shown_live w -> output_shown_live (run w inputs).
Proof.
  revert w. induction inputs as [|i inputs IH]; intros w I L; cbn.
  - exact L.
  - apply IH; [apply Inv_step, I | apply output_shown_live_step; assumption].
Qed.

(** Property X10.  The result panel never shows a revoked URL: whenever the
    output cell holds a URL, so that the result player and the download
    link are rendered with it, that URL is the one live output handle. *)
Theorem result_url_is_live (ready : bool) (inputs : list Input) (u : url) (d : string) :
  let w := run (mounted ready) inputs in
  result (render (st w)) = Some (u, d) ->
  live OutputHandle (trace w) = [u] /\ d = downloadName (file (st w)).
Proof.
  intros w R.
  assert (L : output_shown_live w)
    by (apply output_shown_live_run; [apply Inv_mounted | exact I]).
  unfold output_shown_live in L. cbn in R.
  destruct (outputUrl (st w)) as [u'|]; [|discriminate R].
  cbn in R. injection R as <- <-. split; [exact L | reflexivity].
Qed.

Lemma result_url_is_live_witness :
  let w := run (mounted true)
               (SelectFile (Some clip) :: job_until_read
                  ++ Settle Fulfilled :: job_until_read
                  ++ [Settle Fulfilled])%list in
  live OutputHandle (trace w) = [2%nat].
Proof.
  intros w.
  apply (result_url_is_live true
           (SelectFile (Some clip) :: job_until_read
              ++ Settle Fulfilled :: job_until_read
              ++ [Settle Fulfilled])%list 2%nat "upscaled-clip.mp4").
  vm_compute. reflexivity.
Defined.

(** Property X11.  The preview is not so protected.  The effect cleanup revokes
    both URLs whenever either cell changes, so the last step of a
    successful job revokes the input URL as well: afterwards the input
    cell, and with it the preview player, still holds that URL, but no
    input handle is live. *)
Theorem preview_url_revoked_on_success
  (ready : bool) (inputs : list Input) (j : Job) (u : url) :
  let w := run (mounted ready) inputs in
  job w = Some j -> awaiting j = AwaitRead -> inputUrl (st w) = Some u ->
  let w' := step w (Settle Fulfilled) in
  preview (render (st w')) = Some u
  /\ In (EvRevokeURL u) (calls (snd (react w (Settle Fulfilled))))
  /\ live InputHandle (trace w') = [].
Proof.
  intros w J A U w'.
  pose proof (Inv_reachable ready inputs) as I. fold w in I.
  pose proof (inv_output_below _ I) as B.
  pose proof (inv_input _ I) as Hin.
  assert (E := settle_read w j J A B). fold w' in E.
  assert (T : trace w' = (trace w ++ calls (snd (react w (Settle Fulfilled))))%list).
  { unfold w', step. destruct (react w (Settle Fulfilled)). reflexivity. }
  rewrite E in T. cbn [trace] in T. apply app_inv_head in T.
  rewrite <- T, E, U. cbn. repeat split.
  - exact U.
  - right. left. reflexivity.
  - rewrite live_app. cbn.
    destruct (live InputHandle (trace w)) as [|a [|b l]]; cbn in *;
      try contradiction.
    + destruct (outputUrl (st w)); reflexivity.
    + rewrite U in Hin. injection Hin as <-. cbn. rewrite Nat.eqb_refl. cbn.
      destruct (outputUrl (st w)); reflexivity.
Qed.

Lemma preview_url_revoked_on_success_witness :
  let w := run (mounted true) (SelectFile (Some clip) :: job_until_read) in
  let w' := step w (Settle Fulfilled) in
  live InputHandle (trace w) = [0%nat]
  /\ preview (render (st w')) = Some 0%nat
  /\ live InputHandle (trace w') = [].
Proof.
  intros w w'.
  destruct (preview_url_revoked_on_success true
              (SelectFile (Some clip) :: job_until_read)
              {| awaiting := AwaitRead;
                 closure := st (run (mounted true) [ SelectFile (Some clip) ]);
                 job_file := clip;
                 scaleFilter := "scale=iw*2:ih*2:flags=lanczos" |} 0%nat)
    as (P & _ & L).
  - vm_compute. reflexivity.
  - reflexivity.
  - reflexivity.
  - split; [vm_compute; reflexivity | split; [exact P | exact L]].
Defined.

(** Property X12.  Unmounting leaves nothing behind: after the cleanup of the
    current render no input and no output handle is live. *)
Theorem unmount_revokes_everything (ready : bool) (inputs : list Input) :
  let w := unmount (run (mounted ready) inputs) in
  live InputHandle (trace w) = [] /\ live OutputHandle (trace w) = [].
Proof. split; apply unmount_releases_all. Qed.

(* ================================================================= *)
(** * What handlers leave alone *)

(** What a step leaves alone. *)
Lemma step_keeps_cells (w : World) (i : Input) :
  ffmpeg (st (step w i)) = ffmpeg (st w)
  /\ loadingCore (st (step w i)) = loadingCore (st w)
  /\ (is_change i = false ->
      scale (st (step w i)) = scale (st w)
      /\ algo (st (step w i)) = algo (st w)
      /\ crf (st (step w i)) = crf (st w)
      /\ preset (st (step w i)) = preset (st w)).
Proof.
  open_world w.
  destruct i; handler_unfold; cbn; split_var; cbn;
    repeat split; try reflexivity; discriminate.
Qed.

(** Property X13.  No input writes the engine cell or the loading flag, and the
    four parameters change only through their own controls: selecting a
    file, starting, progress and log events and the steps of a job keep
    scale, algorithm, CRF and preset as they were. *)
Theorem handlers_keep_parameters (w : World) (i : Input) :
  ffmpeg (st (step w i)) = ffmpeg (st w)
  /\ loadingCore (st (step w i)) = loadingCore (st w)
  /\ (is_change i = false ->
      scale (st (step w i)) = scale (st w)
      /\ algo (st (step w i)) = algo (st w)
      /\ crf (st (step w i)) = crf (st w)
      /\ preset (st (step w i)) = preset (st w)).
Proof. apply step_keeps_cells. Qed.

Lemma handlers_keep_parameters_witness :
  let w := run (mounted true) [ ChangeScale "4k"; ChangeCrf 18 ] in
  scale (st (step w (SelectFile (Some clip)))) = "4k"
  /\ crf (st (step w (SelectFile (Some clip)))) = 18.
Proof.
  intros w.
  destruct (handlers_keep_parameters w (SelectFile (Some clip)))
    as (_ & _ & K).
  destruct K as (S & _ & C & _); [reflexivity|].
  split; [rewrite S | rewrite C]; reflexivity.
Defined.
(* ================================================================= *)
(** * Loading the engine *)

Lemma load_deps_same (s : State) : load_deps_changed s s = false.
Proof. unfold load_deps_changed. now rewrite !Bool.eqb_reflx. Qed.

Lemma rerender_load_unchanged (n : nat) (r s : State) (rs : list effect_run) :
  load_deps_changed r s = false -> rerender_load n r s rs = (s, rs).
Proof. intros E. destruct n; cbn; [reflexivity | now rewrite E]. Qed.

(** Three rounds always settle the re-rendering: the effect writes the
    state at most once, and the run after that writes nothing. *)
Lemma rerender_load_settles (n : nat) (r s : State) (rs : list effect_run) :
  rerender_load (3 + n) r s rs = rerender_load 3 r s rs.
Proof.
  destruct r as [rf rl ? ? ? ? ? ? ? ? ? ?], s as [sf sl ? ? ? ? ? ? ? ? ? ?].
  destruct rf, rl, sf, sl; reflexivity.
Qed.

Lemma with_state_same (w : World) : with_state (st w) w = w.
Proof. now destruct w. Qed.

Lemma no_engine_no_job (w : World) (i : Input) :
  ffmpeg (st w) = false -> job w = None ->
  job (step w i) = None
  /\ engine_calls (trace (step w i)) = engine_calls (trace w).
Proof.
  intros F J. open_world w. subst.
  destruct i; handler_unfold; cbn; split_var; cbn;
    unfold engine_calls; rewrite ?filter_app; cbn; rewrite ?app_nil_r;
    split; reflexivity.
Qed.

Lemma finish_run_keeps (k : nat) (rs : list effect_run) :
  Forall (fun e => loading e = true -> cancelled e = true) rs ->
  Forall (fun e => loading e = true -> cancelled e = true) (finish_run k rs).
Proof.
  intros F. revert k. induction F as [|e rs H F IH]; intros k.
  - destruct k; constructor.
  - destruct k; cbn; constructor; cbn; try assumption; try discriminate.
    apply IH.
Qed.

Lemma load_settled_cancelled (e : effect_run) (o : outcome) (h : hstate) :
  cancelled e = true -> load_settled e o h = (tt, h).
Proof.
  intros C. unfold load_settled. rewrite C. destruct o; reflexivity.
Qed.

Lemma stuck_loading_mount : stuck_loading page_mount.
Proof.
  repeat split; try reflexivity.
  cbn. repeat constructor; cbn; auto; discriminate.
Qed.

Lemma stuck_loading_step (p : Page) (i : PageInput) :
  stuck_loading p -> stuck_loading (page_step p i).
Proof.
  intros (F & L & J & E & R). destruct i as [i | k o]; unfold page_step.
  - destruct (step_keeps_cells (world p) i) as (F' & L' & _).
    destruct (no_engine_no_job (world p) i F J) as (J' & E').
    cbv zeta.
    rewrite rerender_load_unchanged
      by (unfold load_deps_changed; rewrite F', L', !Bool.eqb_reflx;
          reflexivity).
    rewrite with_state_same. unfold stuck_loading. cbn [world runs].
    repeat split; try congruence; exact R.
  - destruct (nth_error (runs p) k) as [e|] eqn:N;
      [|repeat split; assumption].
    destruct (loading e) eqn:Le; [|repeat split; assumption].
    assert (C : cancelled e = true).
    { rewrite Forall_forall in R. apply (R e); [|exact Le].
      eapply nth_error_In, N. }
    rewrite (load_settled_cancelled e o _ C). cbn [queued].
    rewrite rerender_load_unchanged by apply load_deps_same.
    rewrite with_state_same. unfold stuck_loading. cbn [world runs].
    repeat split; try assumption; now apply finish_run_keeps.
Qed.

Lemma stuck_loading_run (p : Page) (inputs : list PageInput) :
  stuck_loading p -> stuck_loading (page_run p inputs).
Proof.
  revert p. induction inputs as [|i inputs IH]; intros p H; cbn;
    [exact H | apply IH, stuck_loading_step, H].
Qed.

(** Property X14.  The loading effect cancels its own load.  Its first run sets
    the loading flag, which is one of its dependencies; the re-render
    for that runs the cleanup, which sets the [cancelled] variable of
    the run whose load is in flight, and the next run returns at the
    guard.  When the load settles it therefore writes nothing: whatever
    happens after mounting, and whether the load is fulfilled or
    rejected, the engine cell stays empty and the loading flag stays
    up, so the start button stays disabled, no job is started and no
    engine call is made.  (A run that is not cancelled would publish
    the engine and clear the flag.)  This takes the re-render asked for
    by the effect to come before the load, which awaits three network
    fetches, can settle. *)
Theorem load_effect_cancels_itself (inputs : list PageInput) :
  let p := page_run page_mount inputs in
  runs page_mount = [ {| cancelled := true; loading := true |};
                      {| cancelled := false; loading := false |} ]
  /\ ffmpeg (st (world p)) = false
  /\ loadingCore (st (world p)) = true
  /\ start_disabled (render (st (world p))) = true
  /\ job (world p) = None
  /\ engine_calls (trace (world p)) = []
  /\ (forall s fr cs,
        queued (snd (load_settled {| cancelled := false; loading := true |}
                       Fulfilled {| queued := s; fresh := fr; calls := cs |}))
        = with_loadingCore false (with_ffmpeg true s)).
Proof.
  intros p.
  destruct (stuck_loading_run page_mount inputs stuck_loading_mount)
    as (F & L & J & E & _).
  fold p in F, L, J, E.
  repeat split; try assumption; try reflexivity.
  cbn. unfold disabled. now rewrite F.
Qed.

Lemma calls_follow_job_order_witness :
  let w := run (mounted true)
               [ SelectFile (Some clip); ClickStart None; Settle Fulfilled;
                 Settle Fulfilled; SelectFile None ] in
  stage_from Idle (trace w) = Some Executed.
Proof.
  intros w.
  destruct (calls_follow_job_order true
              [ SelectFile (Some clip); ClickStart None; Settle Fulfilled;
                Settle Fulfilled; SelectFile None ]) as (s & E & H).
  fold w in E, H. rewrite E. f_equal.
  apply (H {| awaiting := AwaitExec;
              closure := st (run (mounted true) [ SelectFile (Some clip) ]);
              job_file := clip;
              scaleFilter := "scale=iw*2:ih*2:flags=lanczos" |}).
  vm_compute. reflexivity.
Defined.

(** Property X18.  The download is named after the file selected when the job
    finishes, not after the file the job processed: the last step of a
    job leaves the selection alone and the result panel takes the
    download name from it. *)
Theorem download_name_follows_selection
  (ready : bool) (inputs : list Input) (j : Job) :
  let w := run (mounted ready) inputs in
  job w = Some j -> awaiting j = AwaitRead ->
  let w' := step w (Settle Fulfilled) in
  file (st w') = file (st w)
  /\ result (render (st w'))
     = Some (next_url w, downloadName (file (st w))).
Proof.
  intros w J A w'.
  pose proof (inv_output_below _ (Inv_reachable ready inputs)) as B. fold w in B.
  unfold w'. rewrite (settle_read w j J A B). split; reflexivity.
Qed.

Lemma download_name_follows_selection_witness :
  let other := {| name := "other.webm"; size := 5 |} in
  let w := run (mounted true)
               (SelectFile (Some clip) :: job_until_read
                  ++ [ SelectFile (Some other) ])%list in
  In (EvWriteFile "input" clip) (trace w)
  /\ result (render (st (step w (Settle Fulfilled))))
     = Some (2%nat, "upscaled-other.mp4").
Proof.
  intros other w.
  destruct (download_name_follows_selection true
              (SelectFile (Some clip) :: job_until_read
                 ++ [ SelectFile (Some other) ])%list
              {| awaiting := AwaitRead;
                 closure := st (run (mounted true) [ SelectFile (Some clip) ]);
                 job_file := clip;
                 scaleFilter := "scale=iw*2:ih*2:flags=lanczos" |})
    as (_ & R).
  - vm_compute. reflexivity.
  - reflexivity.
  - split; [vm_compute; tauto | exact R].
Defined.

Lemma engine_cells_constant (w : World) (inputs : list Input) :
  ffmpeg (st (run w inputs)) = ffmpeg (st w)
  /\ loadingCore (st (run w inputs)) = loadingCore (st w).
Proof.
  revert w. induction inputs as [|i inputs IH]; intros w.
  - split; reflexivity.
  - change (run w (i :: inputs)) with (run (step w i) inputs).
    destruct (IH (step w i)) as [F L].
    destruct (step_keeps_cells w i) as (F' & L' & _).
    split; congruence.
Qed.

(** Property X9.  On a page whose engine is ready, the start button is enabled
    exactly when a file is selected and no job is pending; so after a
    job has ended, by success or by failure, another one can be started
    as long as a file is selected.  Without the engine the button is
    always disabled. *)
Theorem start_enabled_iff (ready : bool) (inputs : list Input) :
  let w := run (mounted ready) inputs in
  start_disabled (render (st w))
  = negb ready
    || match file (st w) with Some _ => false | None => true end
    || match job w with Some _ => true | None => false end.
Proof.
  intros w.
  destruct (engine_cells_constant (mounted ready) inputs) as [F L].
  pose proof (inv_job _ (Inv_reachable ready inputs)) as P.
  fold w in F, L, P.
  change (start_disabled (render (st w))) with (disabled (st w)).
  unfold disabled. rewrite F, L, P. cbn.
  now rewrite orb_false_r.
Qed.
